(** * MergeAI: conflict-marker parser and resolution orchestrator

    A shallow embedding of the TypeScript sources

    - [src/services/ConflictDetector.ts]  (marker patterns, [detectConflictsInFile],
      [hasConflicts], [extractContext]),
    - [src/services/ConflictResolver.ts]  ([resolveConflict], [applyResolution],
      [resolveAllConflicts], [getSuggestions]),
    - [src/providers/*.ts]                (the three backends and their selector),

    together with the properties the specification states about them. *)

From Stdlib Require Import String Ascii ZArith NArith QArith Bool List Lia.
From Stdlib Require Import Sorting.Sorted Sorting.Permutation.
Import ListNotations.

Local Open Scope Z_scope.
Set Implicit Arguments.

(* ================================================================= *)
(** * JavaScript strings *)

(** A JavaScript string is a sequence of UTF-16 code units.  Regular
    expressions without the [u] flag work on code units, and so does
    [String.prototype.split]. *)
Definition char := N.
Definition jsstring := list char.

(** [js "..."] embeds an ASCII literal. *)
Fixpoint js (s : string) : jsstring :=
  match s with
  | EmptyString => []
  | String a s' => N_of_ascii a :: js s'
  end.

Definition LF : char := 10%N.

Definition jsstring_eq_dec : forall a b : jsstring, {a = b} + {a <> b} :=
  list_eq_dec N.eq_dec.

Definition jsstring_eqb (a b : jsstring) : bool :=
  if jsstring_eq_dec a b then true else false.

(** [text.split('\n')]: the pieces between successive line feeds.  The
    result is never empty: the empty text splits into one empty line. *)
Fixpoint split_lf (text : jsstring) : list jsstring :=
  match text with
  | [] => [[]]
  | c :: rest =>
      if N.eqb c LF then [] :: split_lf rest
      else match split_lf rest with
           | [] => [[c]]
           | l :: ls => (c :: l) :: ls
           end
  end.

(** [lines.join('\n')]. *)
Fixpoint join_lf (lines : list jsstring) : jsstring :=
  match lines with
  | [] => []
  | [l] => l
  | l :: ls => l ++ LF :: join_lf ls
  end.

(** A line that can come out of [split('\n')]. *)
Definition no_lf (l : jsstring) : Prop := ~ In LF l.

(* ================================================================= *)
(** * Regular expressions

    The four marker patterns use literal characters, the classes [\s]
    and [.], bounded repetition, [+] and [*].  None has a flag, so [^]
    and [$] anchor at the two ends of the whole subject string, and
    [RegExp.prototype.test] (no [g] flag, hence no [lastIndex] state)
    answers whether the whole subject belongs to the language of the
    pattern between the anchors.  Capture groups do not change that
    answer. *)

Module Regex.

Inductive t : Type :=
  | Void : t                         (* no string at all *)
  | Eps : t                          (* the empty string *)
  | Class : (char -> bool) -> t      (* one code unit from a class *)
  | Cat : t -> t -> t
  | Alt : t -> t -> t
  | Star : t -> t.

(** [\s]: WhiteSpace and LineTerminator code points of ECMAScript. *)
Definition is_space (c : char) : bool :=
    (N.eqb c 9 || N.eqb c 10 || N.eqb c 11 || N.eqb c 12 || N.eqb c 13
     || N.eqb c 32 || N.eqb c 160 || N.eqb c 5760
     || (N.leb 8192 c && N.leb c 8202)
     || N.eqb c 8232 || N.eqb c 8233 || N.eqb c 8239 || N.eqb c 8287
     || N.eqb c 12288 || N.eqb c 65279)%bool%N.

(** LineTerminator: LF, CR, LS, PS. *)
Definition is_line_terminator (c : char) : bool :=
    (N.eqb c 10 || N.eqb c 13 || N.eqb c 8232 || N.eqb c 8233)%bool%N.

(** [.] without the [s] flag: anything but a line terminator. *)
Definition is_dot (c : char) : bool := negb (is_line_terminator c).

(** [\S]. *)
Definition is_non_space (c : char) : bool := negb (is_space c).

Definition Chr (a : ascii) : t := Class (N.eqb (N_of_ascii a)).
Definition Space : t := Class is_space.
Definition NonSpace : t := Class is_non_space.
Definition Dot : t := Class is_dot.
Definition Plus (r : t) : t := Cat r (Star r).

(** [r{n}] *)
Fixpoint Times (n : nat) (r : t) : t :=
    match n with
    | O => Eps
    | S n' => Cat r (Times n' r)
    end.

(** Matching by derivatives. *)
Fixpoint nullable (r : t) : bool :=
    match r with
    | Void => false
    | Eps => true
    | Class _ => false
    | Cat r1 r2 => nullable r1 && nullable r2
    | Alt r1 r2 => nullable r1 || nullable r2
    | Star _ => true
    end.

Fixpoint deriv (c : char) (r : t) : t :=
    match r with
    | Void => Void
    | Eps => Void
    | Class p => if p c then Eps else Void
    | Cat r1 r2 =>
        if nullable r1
        then Alt (Cat (deriv c r1) r2) (deriv c r2)
        else Cat (deriv c r1) r2
    | Alt r1 r2 => Alt (deriv c r1) (deriv c r2)
    | Star r1 => Cat (deriv c r1) (Star r1)
    end.

Fixpoint matches (r : t) (s : jsstring) : bool :=
    match s with
    | [] => nullable r
    | c :: s' => matches (deriv c r) s'
    end.

(** [/^r$/.test(s)] *)
Definition test (r : t) (s : jsstring) : bool := matches r s.

(** The language of a pattern, declaratively. *)
Inductive lang : t -> jsstring -> Prop :=
  | L_eps : lang Eps []
  | L_class : forall p c, p c = true -> lang (Class p) [c]
  | L_cat : forall r1 r2 s1 s2,
      lang r1 s1 -> lang r2 s2 -> lang (Cat r1 r2) (s1 ++ s2)
  | L_alt_l : forall r1 r2 s, lang r1 s -> lang (Alt r1 r2) s
  | L_alt_r : forall r1 r2 s, lang r2 s -> lang (Alt r1 r2) s
  | L_star_nil : forall r, lang (Star r) []
  | L_star_cons : forall r s1 s2,
      lang r s1 -> lang (Star r) s2 -> lang (Star r) (s1 ++ s2).

End Regex.

(* ================================================================= *)
(** * ConflictDetector *)

(** ** Marker patterns (ConflictDetector.ts, the four [readonly] fields)

    Below, [G] stands for the capture group of the source: [.*] between
    parentheses. *)

(** [/^<{7}\s+G$/] *)
Definition conflictStartPattern : Regex.t :=
  Regex.Cat (Regex.Times 7 (Regex.Chr "<"))
            (Regex.Cat (Regex.Plus Regex.Space) (Regex.Star Regex.Dot)).

(** [/^={7}$/] *)
Definition conflictSeparatorPattern : Regex.t :=
  Regex.Times 7 (Regex.Chr "=").

(** [/^>{7}\s+G$/] *)
Definition conflictEndPattern : Regex.t :=
  Regex.Cat (Regex.Times 7 (Regex.Chr ">"))
            (Regex.Cat (Regex.Plus Regex.Space) (Regex.Star Regex.Dot)).

(** [/^\|{7}\s+G$/] *)
Definition conflictBasePattern : Regex.t :=
  Regex.Cat (Regex.Times 7 (Regex.Chr "|"))
            (Regex.Cat (Regex.Plus Regex.Space) (Regex.Star Regex.Dot)).

(** The patterns as the specification writes them, with a mandatory
    non-blank first label character: [^X{7}\s+\S.*$]. *)
Definition spec_labelled_marker (a : ascii) : Regex.t :=
  Regex.Cat (Regex.Times 7 (Regex.Chr a))
            (Regex.Cat (Regex.Plus Regex.Space)
                       (Regex.Cat Regex.NonSpace (Regex.Star Regex.Dot))).

Definition spec_startPattern : Regex.t := spec_labelled_marker "<".
Definition spec_basePattern : Regex.t := spec_labelled_marker "|".
Definition spec_endPattern : Regex.t := spec_labelled_marker ">".
Definition spec_separatorPattern : Regex.t := Regex.Times 7 (Regex.Chr "=").

(** ** Documents *)

(** A snapshot of a [vscode.TextDocument]: the members the sources read.
    [getText] is the whole text with lines separated by LF. *)
Record TextDocument : Type := {
  fileName : jsstring;
  languageId : jsstring;
  getText : jsstring
}.

(** ** Conflict records *)

(** [interface MergeConflict].  The parser builds a
    [Partial<MergeConflict>] and pushes it with the unchecked cast
    [currentConflict as MergeConflict]: the three fields assigned only in
    the separator branch, and [baseContent], can therefore be
    [undefined] in a pushed record; they are options here. *)
Record MergeConflict : Type := {
  startLine : Z;
  endLine : Z;
  currentStart : Z;
  currentEnd : option Z;
  incomingStart : option Z;
  incomingEnd : Z;
  separatorLine : option Z;
  currentContent : jsstring;
  incomingContent : jsstring;
  baseContent : option jsstring;
  filePath : jsstring
}.

(** The [Partial<MergeConflict>] held in [currentConflict] between a
    start marker and the next end marker: the object literal of the
    start branch, plus what the separator branch assigns. *)
Record PartialConflict : Type := {
  p_startLine : Z;
  p_currentStart : Z;
  p_filePath : jsstring;
  p_currentEnd : option Z;
  p_separatorLine : option Z;
  p_incomingStart : option Z
}.

Inductive Section_ : Type := current | base | incoming.

(** The local variables of [detectConflictsInFile]. *)
Record ParserState : Type := {
  conflicts : list MergeConflict;
  inConflict : bool;
  currentConflict : option PartialConflict;
  section : Section_;
  currentBuf : list jsstring;     (* [currentContent: string[]] *)
  baseBuf : list jsstring;        (* [baseContent: string[]] *)
  incomingBuf : list jsstring     (* [incomingContent: string[]] *)
}.

Definition initialState : ParserState :=
  {| conflicts := []; inConflict := false; currentConflict := None;
     section := current; currentBuf := []; baseBuf := []; incomingBuf := [] |}.

(** The record completed in the end-marker branch at line [i]. *)
Definition finish (p : PartialConflict) (i : Z) (st : ParserState) : MergeConflict :=
  {| startLine := p_startLine p;
     endLine := i;
     currentStart := p_currentStart p;
     currentEnd := p_currentEnd p;
     incomingStart := p_incomingStart p;
     incomingEnd := i - 1;
     separatorLine := p_separatorLine p;
     currentContent := join_lf (currentBuf st);
     incomingContent := join_lf (incomingBuf st);
     baseContent :=
       if (0 <? Z.of_nat (length (baseBuf st)))
       then Some (join_lf (baseBuf st)) else None;
     filePath := p_filePath p |}.

(** One iteration of the [for] loop of [detectConflictsInFile], on line
    [line] at index [i]. *)
Definition step (file : jsstring) (i : Z) (line : jsstring) (st : ParserState)
  : ParserState :=
  if Regex.test conflictStartPattern line then
    (* Start of a new conflict *)
    {| conflicts := conflicts st;
       inConflict := true;
       currentConflict :=
         Some {| p_startLine := i; p_currentStart := i + 1; p_filePath := file;
                 p_currentEnd := None; p_separatorLine := None;
                 p_incomingStart := None |};
       section := current;
       currentBuf := []; baseBuf := []; incomingBuf := [] |}
  else if inConflict st && Regex.test conflictSeparatorPattern line then
    (* Separator between current and incoming *)
    {| conflicts := conflicts st;
       inConflict := inConflict st;
       currentConflict :=
         match currentConflict st with
         | Some p =>
             Some {| p_startLine := p_startLine p;
                     p_currentStart := p_currentStart p;
                     p_filePath := p_filePath p;
                     p_currentEnd := Some (i - 1);
                     p_separatorLine := Some i;
                     p_incomingStart := Some (i + 1) |}
         | None => None
         end;
       section := incoming;
       currentBuf := currentBuf st; baseBuf := baseBuf st;
       incomingBuf := incomingBuf st |}
  else if inConflict st && Regex.test conflictBasePattern line then
    (* Base marker (for 3-way merge conflicts) *)
    {| conflicts := conflicts st;
       inConflict := inConflict st;
       currentConflict := currentConflict st;
       section := base;
       currentBuf := currentBuf st; baseBuf := baseBuf st;
       incomingBuf := incomingBuf st |}
  else if inConflict st && Regex.test conflictEndPattern line then
    (* End of conflict *)
    {| conflicts :=
         match currentConflict st with
         | Some p => conflicts st ++ [finish p i st]
         | None => conflicts st
         end;
       inConflict := false;
       currentConflict := None;
       section := section st;
       currentBuf := currentBuf st; baseBuf := baseBuf st;
       incomingBuf := incomingBuf st |}
  else if inConflict st then
    (* Content within conflict *)
    match section st with
    | current =>
        {| conflicts := conflicts st; inConflict := inConflict st;
           currentConflict := currentConflict st; section := section st;
           currentBuf := currentBuf st ++ [line];
           baseBuf := baseBuf st; incomingBuf := incomingBuf st |}
    | base =>
        {| conflicts := conflicts st; inConflict := inConflict st;
           currentConflict := currentConflict st; section := section st;
           currentBuf := currentBuf st;
           baseBuf := baseBuf st ++ [line]; incomingBuf := incomingBuf st |}
    | incoming =>
        {| conflicts := conflicts st; inConflict := inConflict st;
           currentConflict := currentConflict st; section := section st;
           currentBuf := currentBuf st; baseBuf := baseBuf st;
           incomingBuf := incomingBuf st ++ [line] |}
    end
  else st.

(** The loop [for (let i = 0; i < lines.length; i++)], entered at index
    [i] with the lines still to read. *)
Fixpoint scan (file : jsstring) (lines : list jsstring) (i : Z) (st : ParserState)
  : ParserState :=
  match lines with
  | [] => st
  | line :: rest => scan file rest (i + 1) (step file i line st)
  end.

Definition detectConflictsInLines (file : jsstring) (lines : list jsstring)
  : list MergeConflict :=
  conflicts (scan file lines 0 initialState).

(** [async detectConflictsInFile(document)] *)
Definition detectConflictsInFile (document : TextDocument) : list MergeConflict :=
  detectConflictsInLines (fileName document) (split_lf (getText document)).

(** [hasConflicts(document)]: the three patterns are tested against the
    whole text. *)
Definition hasConflicts (document : TextDocument) : bool :=
  Regex.test conflictStartPattern (getText document)
  && Regex.test conflictSeparatorPattern (getText document)
  && Regex.test conflictEndPattern (getText document).

(** [Array.prototype.slice(from, to)] for [0 <= from] and [0 <= to]. *)
Definition slice {A : Type} (l : list A) (from to : Z) : list A :=
  firstn (Z.to_nat (to - from)) (skipn (Z.to_nat from) l).

(** [getConflictAtPosition(conflicts, position)], on [position.line]. *)
Definition getConflictAtPosition (cs : list MergeConflict) (line : Z)
  : option MergeConflict :=
  find (fun c => (startLine c <=? line) && (line <=? endLine c)) cs.

(** [extractContext(document, conflict, contextLines = 50)] *)
Definition extractContext (document : TextDocument) (conflict : MergeConflict)
    (contextLines : Z) : jsstring :=
  let lines := split_lf (getText document) in
  let startContext := Z.max 0 (startLine conflict - contextLines) in
  let endContext :=
    Z.min (Z.of_nat (length lines) - 1) (endLine conflict + contextLines) in
  let beforeContext := join_lf (slice lines startContext (startLine conflict)) in
  let afterContext := join_lf (slice lines (endLine conflict + 1) (endContext + 1)) in
  js "Context before conflict:" ++ [LF] ++ beforeContext ++ [LF; LF]
    ++ js "Context after conflict:" ++ [LF] ++ afterContext.

(* ================================================================= *)
(** * Backends (src/providers) *)

(** JavaScript numbers occur here only as literals, as operands of [||]
    and in comparisons; they are rationals in this development. *)

(** [interface AIProviderConfig] *)
Record AIProviderConfig : Type := {
  apiKey : option jsstring;
  model : option jsstring;
  endpoint : option jsstring;
  temperature : option Q;
  maxTokens : option Z
}.

(** [interface ConflictResolutionRequest] *)
Record ConflictResolutionRequest : Type := {
  req_currentContent : jsstring;
  req_incomingContent : jsstring;
  req_baseContent : option jsstring;
  req_context : jsstring;
  req_filePath : jsstring;
  req_language : option jsstring
}.

(** [interface ConflictResolutionResponse] *)
Record ConflictResolutionResponse : Type := {
  resolution : jsstring;
  explanation : jsstring;
  confidence : Q;
  alternatives : option (list jsstring)
}.

(** A thrown [Error]. *)
Record JsError : Type := { message : jsstring }.

(** What a failed transport call throws: [error.message], the text of
    [String(error)], and [error.response?.data?.error?.message]. *)
Record TransportFailure : Type := {
  failure_message : jsstring;
  failure_text : jsstring;
  failure_api_message : option jsstring
}.

(** The model parameters a backend hands to its transport
    ([ollama.generate], [axios.post]). *)
Record ModelCall : Type := {
  call_endpoint : jsstring;
  call_apiKey : option jsstring;
  call_model : jsstring;
  call_prompt : jsstring;
  call_temperature : Q;
  call_maxTokens : Z
}.

(** The result of [JSON.parse] as far as the backends look at it: [null],
    or a value with the three properties they read ([None] where the
    property is absent). *)
Inductive Json : Type :=
| JsonNull : Json
| JsonValue : option jsstring -> option jsstring -> option Q -> Json.

Inductive ProviderType : Type := ollama | openai | claude.

(** [a || b] on an optional string: [undefined] and [''] are falsy. *)
Definition or_string (a : option jsstring) (b : jsstring) : jsstring :=
  match a with
  | Some (c :: s) => c :: s
  | _ => b
  end.

(** [a || b] on an optional number: [undefined] and [0] are falsy. *)
Definition or_number (a : option Q) (b : Q) : Q :=
  match a with
  | Some q => if Qeq_bool q 0%Q then b else q
  | None => b
  end.

Definition or_integer (a : option Z) (b : Z) : Z :=
  match a with
  | Some z => if z =? 0 then b else z
  | None => b
  end.

(** [!x] on an optional string. *)
Definition falsy (a : option jsstring) : bool :=
  match a with
  | Some (_ :: _) => false
  | _ => true
  end.

Definition DQ : jsstring := [34%N].
Definition fence : jsstring := js "```".

(** [AIProvider.buildPrompt(request)] *)
Definition buildPrompt (request : ConflictResolutionRequest) : jsstring :=
  let prompt :=
    js "You are an expert developer helping to resolve a merge conflict in "
    ++ req_filePath request ++ js ".

The conflict has occurred between the following versions:

CURRENT VERSION (HEAD):
" ++ fence ++ [LF] ++ req_currentContent request ++ [LF] ++ fence ++ js "

INCOMING VERSION:
" ++ fence ++ [LF] ++ req_incomingContent request ++ [LF] ++ fence ++ [LF] in
  let prompt :=
    if falsy (req_baseContent request) then prompt
    else prompt ++ js "
BASE VERSION (common ancestor):
" ++ fence ++ [LF] ++ or_string (req_baseContent request) [] ++ [LF] ++ fence ++ [LF] in
  prompt ++ js "
SURROUNDING CONTEXT:
" ++ req_context request ++ js "

Please analyze this merge conflict and provide:
1. A resolved version that correctly merges both changes
2. An explanation of your resolution strategy
3. Your confidence level (0-1) in this resolution

Consider:
- The intent of both changes
- Maintaining code functionality
- Preserving important logic from both versions
- Following the coding style and patterns in the file

Respond in JSON format:
{
    " ++ DQ ++ js "resolution" ++ DQ ++ js ": " ++ DQ ++ js "the merged code" ++ DQ ++ js ",
    " ++ DQ ++ js "explanation" ++ DQ ++ js ": " ++ DQ ++ js "why you resolved it this way" ++ DQ ++ js ",
    " ++ DQ ++ js "confidence" ++ DQ ++ js ": 0.95
}".

(** The collaborators of the backends: the three transports, as
    functions of the state [World] of everything outside the extension,
    and [JSON.parse].  A successful hosted call is taken to carry a reply
    text ([choices[0].message.content], [content[0].text]). *)
Class Transports (World : Type) : Type := {
  transport : ProviderType -> ModelCall -> World -> (TransportFailure + jsstring) * World;
  JSON_parse : jsstring -> option Json;
  (* [String(e)] and [e.message] of the TypeError of a property read on [null] *)
  null_read_text : jsstring;
  null_read_message : jsstring
}.

(** [abstract class AIProvider], by its method [resolveConflict]. *)
Record AIProvider (World : Type) : Type := {
  provider_resolveConflict :
    ConflictResolutionRequest -> World -> (JsError + ConflictResolutionResponse) * World
}.

Definition unexpected_format : jsstring :=
  js "AI provided a resolution but response format was unexpected".

Module OllamaProvider.
Section WithTransports.
Context {World : Type} `{Transports World}.

(** The argument of [this.ollama.generate], with the host given to the
    constructor. *)
Definition generate_call (config : AIProviderConfig) (prompt : jsstring) : ModelCall :=
    {| call_endpoint := or_string (endpoint config) (js "http://localhost:11434");
       call_apiKey := None;
       call_model := or_string (model config) (js "codellama");
       call_prompt := prompt;
       call_temperature := or_number (temperature config) 0.3%Q;
       call_maxTokens := or_integer (maxTokens config) 2048 |}.

(** [OllamaProvider.resolveConflict] *)
Definition resolveConflict (config : AIProviderConfig)
      (request : ConflictResolutionRequest) (w : World)
    : (JsError + ConflictResolutionResponse) * World :=
    let prompt := buildPrompt request in
    let wrap (text : jsstring) : JsError :=
      {| message := js "Failed to get resolution from Ollama: " ++ text |} in
    match transport ollama (generate_call config prompt) w with
    | (inl failure, w') => (inl (wrap (failure_text failure)), w')
    | (inr reply, w') =>
        match JSON_parse reply with
        | None =>
            (inr {| resolution := reply;
                    explanation := unexpected_format;
                    confidence := 0.5%Q;
                    alternatives := None |}, w')
        | Some JsonNull => (inl (wrap null_read_text), w')
        | Some (JsonValue r e c) =>
            (inr {| resolution := or_string r reply;
                    explanation := or_string e (js "Resolution provided by Ollama");
                    confidence := or_number c 0.7%Q;
                    alternatives := None |}, w')
        end
    end.

Definition provider (config : AIProviderConfig) : AIProvider World :=
    {| provider_resolveConflict := resolveConflict config |}.

End WithTransports.
End OllamaProvider.

(** The two hosted backends differ in names, defaults and wire format
    only. *)
Inductive HostedVendor : Type := OpenAI | Claude.

Module HostedProvider.
Section WithTransports.
Context {World : Type} `{Transports World}.

Definition type_of (v : HostedVendor) : ProviderType :=
  match v with
  | OpenAI => openai
  | Claude => claude
  end.

Definition vendor (v : HostedVendor) : jsstring :=
  match v with
  | OpenAI => js "OpenAI"
  | Claude => js "Claude"
  end.

Definition default_endpoint (v : HostedVendor) : jsstring :=
  match v with
  | OpenAI => js "https://api.openai.com/v1/chat/completions"
  | Claude => js "https://api.anthropic.com/v1/messages"
  end.

Definition default_model (v : HostedVendor) : jsstring :=
  match v with
  | OpenAI => js "gpt-4"
  | Claude => js "claude-3-opus-20240229"
  end.

(** The arguments of [axios.post]. *)
Definition post_call (v : HostedVendor) (config : AIProviderConfig)
    (prompt : jsstring) : ModelCall :=
  {| call_endpoint := or_string (endpoint config) (default_endpoint v);
     call_apiKey := apiKey config;
     call_model := or_string (model config) (default_model v);
     call_prompt := prompt;
     call_temperature := or_number (temperature config) 0.3%Q;
     call_maxTokens := or_integer (maxTokens config) 2048 |}.

(** [OpenAIProvider.resolveConflict] and [ClaudeProvider.resolveConflict] *)
Definition resolveConflict (v : HostedVendor) (config : AIProviderConfig)
    (request : ConflictResolutionRequest) (w : World)
  : (JsError + ConflictResolutionResponse) * World :=
  if falsy (apiKey config) then
    (inl {| message := vendor v ++ js " API key is required" |}, w)
  else
    let prompt := buildPrompt request in
    let wrap (text : jsstring) : JsError :=
      {| message := js "Failed to get resolution from " ++ vendor v
                      ++ js ": " ++ text |} in
    match transport (type_of v) (post_call v config prompt) w with
    | (inl failure, w') =>
        (inl (wrap (or_string (failure_api_message failure)
                              (failure_message failure))), w')
    | (inr content, w') =>
        match JSON_parse content with
        | None =>
            (inr {| resolution := content;
                    explanation := unexpected_format;
                    confidence := 0.6%Q;
                    alternatives := None |}, w')
        | Some JsonNull => (inl (wrap null_read_message), w')
        | Some (JsonValue r e c) =>
            (inr {| resolution := or_string r content;
                    explanation :=
                      or_string e (js "Resolution provided by " ++ vendor v);
                    confidence := or_number c 0.85%Q;
                    alternatives := None |}, w')
        end
    end.

Definition provider (v : HostedVendor) (config : AIProviderConfig)
  : AIProvider World :=
  {| provider_resolveConflict := resolveConflict v config |}.

End WithTransports.
End HostedProvider.

(** The settings [ConfigurationManager] reads. *)
Record Settings : Type := {
  ollamaUrl : jsstring;
  ollamaModel : jsstring;
  openaiModel : jsstring;
  claudeModel : jsstring
}.

Module AIProviderManager.
Section WithTransports.
Context {World : Type} `{Transports World}.

(** [getProviderConfig(type)]; [key] is what [getApiKey] returned. *)
Definition getProviderConfig (settings : Settings) (key : option jsstring)
      (type : ProviderType) : AIProviderConfig :=
    match type with
    | ollama =>
        {| apiKey := None; model := Some (ollamaModel settings);
           endpoint := Some (ollamaUrl settings);
           temperature := Some 0.3%Q; maxTokens := Some 2048 |}
    | openai =>
        {| apiKey := key; model := Some (openaiModel settings);
           endpoint := None;
           temperature := Some 0.3%Q; maxTokens := Some 2048 |}
    | claude =>
        {| apiKey := key; model := Some (claudeModel settings);
           endpoint := None;
           temperature := Some 0.3%Q; maxTokens := Some 2048 |}
    end.

(** The [switch (type)] of [switchProvider]. *)
Definition newProvider (type : ProviderType) (config : AIProviderConfig)
    : AIProvider World :=
    match type with
    | ollama => OllamaProvider.provider config
    | openai => HostedProvider.provider OpenAI config
    | claude => HostedProvider.provider Claude config
    end.

(** The provider [switchProvider(type)] installs. *)
Definition switchProvider (settings : Settings) (key : option jsstring)
      (type : ProviderType) : AIProvider World :=
    newProvider type (getProviderConfig settings key type).

(** [getProvider()] *)
Definition getProvider (currentProvider : option (AIProvider World))
    : JsError + AIProvider World :=
    match currentProvider with
    | None => inl {| message := js "No AI provider is configured" |}
    | Some p => inr p
    end.

End WithTransports.
End AIProviderManager.

(* ================================================================= *)
(** * The host editor *)

(** The items of the two message boxes of the batch workflow. *)
Inductive WarningItem : Type := Retry | Skip | CancelApply.   (* 'Retry', 'Skip', 'Cancel' *)
Inductive ErrorItem : Type := Continue | CancelBatch.         (* 'Continue', 'Cancel' *)

(** [edit.replace(uri, new vscode.Range(l1, c1, l2, c2), newText)] *)
Record WorkspaceEdit : Type := {
  edit_uri : jsstring;
  edit_startLine : Z;
  edit_startCharacter : Z;
  edit_endLine : Z;
  edit_endCharacter : Z;
  edit_newText : jsstring
}.

(** What the orchestrator asks of the editor and of the backend
    selector.  Each call may depend on, and change, the state [World] of
    everything outside the extension; the message boxes answer with the
    chosen item or with [undefined]. *)
Class Host (World : Type) : Type := {
  (* [AIProviderManager.currentProvider] *)
  currentProvider : World -> option (AIProvider World);
  (* [token.isCancellationRequested] *)
  isCancellationRequested : World -> bool;
  (* [vscode.workspace.applyEdit(edit)]: was the edit applied *)
  applyEdit : WorkspaceEdit -> World -> bool * World;
  (* [editor.document.save()], whose result the sources ignore *)
  save : jsstring -> World -> World;
  (* [showWarningMessage(..., 'Retry', 'Skip', 'Cancel')], for a file *)
  showWarningMessage : jsstring -> World -> option WarningItem * World;
  (* [showErrorMessage(text, 'Continue', 'Cancel')] *)
  showErrorMessage : jsstring -> World -> option ErrorItem * World;
  (* [vscode.workspace.findFiles], the paths of the files found *)
  findFiles : World -> list jsstring * World
}.

(** The lines of a document (LF line ends). *)
Definition lines_of (document : TextDocument) : list jsstring :=
  split_lf (getText document).

(** [document.lineAt(line).text]; [None] where [lineAt] throws. *)
Definition lineAt (document : TextDocument) (line : Z) : option jsstring :=
  if (0 <=? line) && (line <? Z.of_nat (length (lines_of document)))
  then nth_error (lines_of document) (Z.to_nat line)
  else None.

Definition CR : char := 13%N.

(** The line ends of an inserted text as the editor stores them in a
    document whose end of line is LF: each CR LF and each lone CR
    becomes one LF ([text.replace(/\r\n|\r|\n/g, '\n')]). *)
Fixpoint normalize_eol (text : jsstring) : jsstring :=
  match text with
  | [] => []
  | c :: rest =>
      if N.eqb c CR then
        LF :: match rest with
              | [] => []
              | d :: rest' =>
                  if N.eqb d LF then normalize_eol rest' else normalize_eol rest
              end
      else c :: normalize_eol rest
  end.

(** [new vscode.Range(l1, c1, l2, c2)]: the two positions in order, the
    constructor swaps them where the first lies after the second. *)
Definition Range (l1 c1 l2 c2 : Z) : Z * Z * Z * Z :=
  if (l1 <? l2) || ((l1 =? l2) && (c1 <=? c2))
  then (l1, c1, l2, c2)
  else (l2, c2, l1, c1).

(** The text of a document, with LF as its end of line, after an applied
    edit: the lines before the range, then the kept head of its first
    line, the new text with its line ends made LF and the kept tail of
    its last line, then the lines after the range. *)
Definition replaceRange (document : TextDocument) (e : WorkspaceEdit) : TextDocument :=
  let lines := lines_of document in
  let first := nth (Z.to_nat (edit_startLine e)) lines [] in
  let last := nth (Z.to_nat (edit_endLine e)) lines [] in
  {| fileName := fileName document;
     languageId := languageId document;
     getText :=
       join_lf (firstn (Z.to_nat (edit_startLine e)) lines
                ++ [firstn (Z.to_nat (edit_startCharacter e)) first
                    ++ normalize_eol (edit_newText e)
                    ++ skipn (Z.to_nat (edit_endCharacter e)) last]
                ++ skipn (S (Z.to_nat (edit_endLine e))) lines) |}.

(** The documents of the workspace, by path. *)
Definition Workspace : Type := list (jsstring * TextDocument).

Fixpoint openTextDocument (path : jsstring) (ws : Workspace) : option TextDocument :=
  match ws with
  | [] => None
  | (p, d) :: rest => if jsstring_eqb p path then Some d else openTextDocument path rest
  end.

Fixpoint storeTextDocument (path : jsstring) (d : TextDocument) (ws : Workspace)
  : Workspace :=
  match ws with
  | [] => []
  | (p, d0) :: rest =>
      if jsstring_eqb p path then (p, d) :: rest
      else (p, d0) :: storeTextDocument path d rest
  end.

(** [Map.prototype.set]: a new key goes last, an old key keeps its place. *)
Fixpoint map_set {V : Type} (k : jsstring) (v : V) (m : list (jsstring * V))
  : list (jsstring * V) :=
  match m with
  | [] => [(k, v)]
  | (k0, v0) :: rest =>
      if jsstring_eqb k0 k then (k0, v) :: rest else (k0, v0) :: map_set k v rest
  end.

(** [Array.prototype.sort(compareFn)]: the stable sort of the array by a
    consistent comparator, here by insertion from the right. *)
Fixpoint sort_insert {A : Type} (compareFn : A -> A -> Z) (x : A) (l : list A) : list A :=
  match l with
  | [] => [x]
  | y :: l' =>
      if compareFn x y <=? 0 then x :: y :: l'
      else y :: sort_insert compareFn x l'
  end.

Fixpoint Array_sort {A : Type} (compareFn : A -> A -> Z) (l : list A) : list A :=
  match l with
  | [] => []
  | x :: l' => sort_insert compareFn x (Array_sort compareFn l')
  end.

(* ================================================================= *)
(** * ConflictResolver *)

(** [interface ResolutionResult] *)
Record ResolutionResult : Type := {
  rr_conflict : MergeConflict;
  rr_resolution : ConflictResolutionResponse;
  applied : bool;
  error : option jsstring
}.

(** [results[results.length - 1].applied = b] *)
Definition set_last_applied (rs : list ResolutionResult) (b : bool)
  : list ResolutionResult :=
  match rev rs with
  | [] => rs
  | r :: front =>
      rev front ++ [{| rr_conflict := rr_conflict r;
                       rr_resolution := rr_resolution r;
                       applied := b;
                       error := error r |}]
  end.

(** [const temperatures = [0.2, 0.5, 0.8]] of [getSuggestions]. *)
Definition temperatures : list Q := [0.2%Q; 0.5%Q; 0.8%Q].

(** How an iteration of the batch loops ends: it falls through to the
    next one, leaves its loop with [break], or leaves the whole callback
    with [return results]. *)
Inductive Flow : Type := Next | Break | Return.

Module ConflictResolver.
Section WithHost.
Context {World : Type} `{Host World}.

(** The variables of the batch callback while one file is open: the
    shared [results] array, the live document of the editor, and the
    outside world. *)
Record Batch : Type := {
    results : list ResolutionResult;
    document : TextDocument;
    world : World
  }.

(** The request both [resolveConflict] and [getSuggestions] build. *)
Definition request_for (document : TextDocument) (conflict : MergeConflict)
    : ConflictResolutionRequest :=
    {| req_currentContent := currentContent conflict;
       req_incomingContent := incomingContent conflict;
       req_baseContent := baseContent conflict;
       req_context := extractContext document conflict 50;
       req_filePath := filePath conflict;
       req_language := Some (languageId document) |}.

(** [resolveConflict(document, conflict)] *)
Definition resolveConflict (document : TextDocument) (conflict : MergeConflict)
      (w : World) : (JsError + ConflictResolutionResponse) * World :=
    match AIProviderManager.getProvider (currentProvider w) with
    | inl e => (inl e, w)
    | inr provider =>
        provider_resolveConflict provider (request_for document conflict) w
    end.

(** [applyResolution(editor, conflict, resolution)], on the document of
    the editor: the outcome, and the document and the world after it.
    Whatever throws inside is caught and gives [false]. *)
Definition applyResolution (document : TextDocument) (conflict : MergeConflict)
      (resolution : jsstring) (w : World) : bool * TextDocument * World :=
    match lineAt document (endLine conflict) with
    | None => (false, document, w)                 (* [lineAt] throws *)
    | Some last =>
        if startLine conflict <? 0 then (false, document, w)   (* [Range] throws *)
        else
          let '(l1, c1, l2, c2) :=
            Range (startLine conflict) 0
                  (endLine conflict) (Z.of_nat (length last)) in
          let edit :=
            {| edit_uri := fileName document;
               edit_startLine := l1;
               edit_startCharacter := c1;
               edit_endLine := l2;
               edit_endCharacter := c2;
               edit_newText := resolution |} in
          let (success, w1) := applyEdit edit w in
          if success
          then (true, replaceRange document edit, save (fileName document) w1)
          else (false, document, w1)
    end.

(** The response recorded when the resolution threw. *)
Definition failure_response : ConflictResolutionResponse :=
    {| resolution := []; explanation := []; confidence := 0%Q;
       alternatives := None |}.

(** The [try]/[catch] statement in the body of the inner loop. *)
Definition resolveAndApply (path : jsstring) (conflict : MergeConflict)
      (st : Batch) : Flow * Batch :=
    match resolveConflict (document st) conflict (world st) with
    | (inr resolution_, w1) =>
        let '(applied_, doc1, w2) :=
          applyResolution (document st) conflict (resolution resolution_) w1 in
        let results1 :=
          results st ++
            [{| rr_conflict := conflict;
                rr_resolution := resolution_;
                applied := applied_;
                error := if applied_ then None
                         else Some (js "Failed to apply edit") |}] in
        if applied_ then
          (Next, {| results := results1; document := doc1; world := w2 |})
        else
          let (retry, w3) := showWarningMessage path w2 in
          match retry with
          | Some CancelApply =>
              (Return, {| results := results1; document := doc1; world := w3 |})
          | Some Retry =>
              (* Try again *)
              let '(retryApplied, doc2, w4) :=
                applyResolution doc1 conflict (resolution resolution_) w3 in
              (Next, {| results := set_last_applied results1 retryApplied;
                        document := doc2; world := w4 |})
          | _ =>
              (Next, {| results := results1; document := doc1; world := w3 |})
          end
    | (inl e, w1) =>
        let results1 :=
          results st ++
            [{| rr_conflict := conflict;
                rr_resolution := failure_response;
                applied := false;
                error := Some (message e) |}] in
        let (action, w2) :=
          showErrorMessage (js "Error resolving conflict: " ++ message e) w1 in
        match action with
        | Some CancelBatch =>
            (Return, {| results := results1; document := document st; world := w2 |})
        | _ =>
            (Next, {| results := results1; document := document st; world := w2 |})
        end
    end.

(** [for (const conflict of sortedConflicts) { ... }] *)
Fixpoint processConflicts (path : jsstring) (cs : list MergeConflict)
      (st : Batch) : Flow * Batch :=
    match cs with
    | [] => (Next, st)
    | conflict :: rest =>
        if isCancellationRequested (world st) then (Break, st)
        else
          match resolveAndApply path conflict st with
          | (Next, st') => processConflicts path rest st'
          | (flow, st') => (flow, st')
          end
    end.

(** [[...conflicts].sort((a, b) => b.startLine - a.startLine)] *)
Definition sortedConflicts (cs : list MergeConflict) : list MergeConflict :=
    Array_sort (fun a b => startLine b - startLine a) cs.

(** [detectAllConflicts()]: files that cannot be opened are skipped. *)
Definition detectAllConflicts (ws : Workspace) (w : World)
    : list (jsstring * list MergeConflict) * World :=
    let (files, w') := findFiles w in
    (fold_left
       (fun conflictsByFile file =>
          match openTextDocument file ws with
          | None => conflictsByFile
          | Some document =>
              let cs := detectConflictsInFile document in
              if 0 <? Z.of_nat (length cs)
              then map_set file cs conflictsByFile
              else conflictsByFile
          end)
       files [], w').

(** [for (const [filePath, conflicts] of allConflicts.entries()) { ... }]
    An [openTextDocument] that throws rejects the whole call. *)
Fixpoint processFiles (entries : list (jsstring * list MergeConflict))
      (rs : list ResolutionResult) (ws : Workspace) (w : World)
    : (JsError + list ResolutionResult) * Workspace * World :=
    match entries with
    | [] => (inr rs, ws, w)
    | (path, cs) :: rest =>
        if isCancellationRequested w then (inr rs, ws, w)
        else
          match openTextDocument path ws with
          | None =>
              (inl {| message := js "cannot open " ++ path |}, ws, w)
          | Some doc =>
              match processConflicts path (sortedConflicts cs)
                      {| results := rs; document := doc; world := w |} with
              | (Return, st) =>
                  (inr (results st),
                   storeTextDocument path (document st) ws, world st)
              | (_, st) =>
                  processFiles rest (results st)
                    (storeTextDocument path (document st) ws) (world st)
              end
          end
    end.

(** [resolveAllConflicts()]; the progress reports and the summary
    message are output only. *)
Definition resolveAllConflicts (ws : Workspace) (w : World)
    : (JsError + list ResolutionResult) * Workspace * World :=
    let (allConflicts, w1) := detectAllConflicts ws w in
    processFiles allConflicts [] ws w1.

(** The [for] loop of [getSuggestions], with [n] iterations to go. *)
Fixpoint suggestionLoop (n : nat) (provider : AIProvider World)
      (document : TextDocument) (conflict : MergeConflict)
      (suggestions : list ConflictResolutionResponse) (w : World)
    : list ConflictResolutionResponse * World :=
    match n with
    | O => (suggestions, w)
    | S n' =>
        match provider_resolveConflict provider (request_for document conflict) w with
        | (inr resolution_, w') =>
            suggestionLoop n' provider document conflict
              (suggestions ++ [resolution_]) w'
        | (inl _, w') =>
            suggestionLoop n' provider document conflict suggestions w'
        end
    end.

(** [getSuggestions(document, conflict, count = 3)] *)
Definition getSuggestions (document : TextDocument) (conflict : MergeConflict)
      (count : Z) (w : World)
    : (JsError + list ConflictResolutionResponse) * World :=
    match AIProviderManager.getProvider (currentProvider w) with
    | inl e => (inl e, w)
    | inr provider =>
        let n := Z.to_nat (Z.min count (Z.of_nat (length temperatures))) in
        let (suggestions, w') := suggestionLoop n provider document conflict [] w in
        (inr suggestions, w')
    end.

End WithHost.
End ConflictResolver.

(* ================================================================= *)
(** * Vocabulary of the statements *)

(** The parser state right after a start marker at line [i], the
    conflicts found so far being [cs]. *)
Definition opened (file : jsstring) (cs : list MergeConflict) (i : Z) : ParserState :=
  {| conflicts := cs;
     inConflict := true;
     currentConflict :=
       Some {| p_startLine := i; p_currentStart := i + 1; p_filePath := file;
               p_currentEnd := None; p_separatorLine := None;
               p_incomingStart := None |};
     section := current;
     currentBuf := []; baseBuf := []; incomingBuf := [] |}.

(** The state after content lines [ls] inside a block: they go to the
    buffer of the current section. *)
Definition add_content (ls : list jsstring) (st : ParserState) : ParserState :=
  {| conflicts := conflicts st; inConflict := inConflict st;
     currentConflict := currentConflict st; section := section st;
     currentBuf :=
       match section st with current => currentBuf st ++ ls | _ => currentBuf st end;
     baseBuf :=
       match section st with base => baseBuf st ++ ls | _ => baseBuf st end;
     incomingBuf :=
       match section st with incoming => incomingBuf st ++ ls | _ => incomingBuf st end |}.

(** The record of a 2-way block whose start marker is line [i] of
    [file], with the lines [cur] and [inc] in its two sections. *)
Definition block_record (file : jsstring) (i : Z) (cur inc : list jsstring)
  : MergeConflict :=
  let n := Z.of_nat (length cur) in
  let m := Z.of_nat (length inc) in
  {| startLine := i;
     endLine := i + n + m + 2;
     currentStart := i + 1;
     currentEnd := Some (i + n);
     incomingStart := Some (i + n + 2);
     incomingEnd := i + n + m + 1;
     separatorLine := Some (i + n + 1);
     currentContent := join_lf cur;
     incomingContent := join_lf inc;
     baseContent := None;
     filePath := file |}.

(** A record whose span lies in the lines [0 .. n-1], and whose
    separator, where it has one, lies inside the span. *)
Definition well_spanned (n : Z) (c : MergeConflict) : Prop :=
  0 <= startLine c /\ startLine c < endLine c /\ endLine c < n
  /\ match separatorLine c with
     | Some s => startLine c < s /\ s < endLine c
     | None => True
     end.

(** Records in document order, one span ending before the next starts. *)
Definition in_document_order (cs : list MergeConflict) : Prop :=
  StronglySorted (fun a b => endLine a < startLine b) cs.

(** What holds of the parser state before it reads line [i]. *)
Definition parser_inv (i : Z) (st : ParserState) : Prop :=
  Forall (well_spanned i) (conflicts st)
  /\ in_document_order (conflicts st)
  /\ match currentConflict st with
     | Some p =>
         0 <= p_startLine p /\ p_startLine p < i
         /\ Forall (fun c => endLine c < p_startLine p) (conflicts st)
         /\ match p_separatorLine p with
            | Some s => p_startLine p < s /\ s < i
            | None => True
            end
     | None => True
     end.

(** Does a line match one of the four patterns? *)
Definition is_marker (line : jsstring) : bool :=
  Regex.test conflictStartPattern line
  || Regex.test conflictSeparatorPattern line
  || Regex.test conflictBasePattern line
  || Regex.test conflictEndPattern line.

Definition is_start (line : jsstring) : bool := Regex.test conflictStartPattern line.
Definition is_end (line : jsstring) : bool := Regex.test conflictEndPattern line.

(** The result recorded for a conflict whose resolution threw [e]. *)
Definition failed_result (conflict : MergeConflict) (e : JsError) : ResolutionResult :=
  {| rr_conflict := conflict;
     rr_resolution := ConflictResolver.failure_response;
     applied := false;
     error := Some (message e) |}.

(** The call each backend sends to its transport for a request. *)
Definition call_of (type : ProviderType) (config : AIProviderConfig)
    (request : ConflictResolutionRequest) : ModelCall :=
  match type with
  | ollama => OllamaProvider.generate_call config (buildPrompt request)
  | openai => HostedProvider.post_call OpenAI config (buildPrompt request)
  | claude => HostedProvider.post_call Claude config (buildPrompt request)
  end.

(** The confidence of the fallback response of each backend. *)
Definition fallback_confidence (type : ProviderType) : Q :=
  match type with
  | ollama => 0.5%Q
  | openai => 0.6%Q
  | claude => 0.6%Q
  end.

(** A map from paths to conflicts that holds, for distinct paths, the
    conflicts of the documents these paths have in the workspace. *)
Definition entries_fresh (ws : Workspace)
    (entries : list (jsstring * list MergeConflict)) : Prop :=
  NoDup (map fst entries)
  /\ Forall (fun e => exists doc,
                 openTextDocument (fst e) ws = Some doc
                 /\ snd e = detectConflictsInFile doc) entries.

(** The lines [a .. b-1] of a list of lines. *)
Definition span_lines (lines : list jsstring) (a b : Z) : list jsstring :=
  skipn (Z.to_nat a) (firstn (Z.to_nat b) lines).

(** The lines [lines] from line [pos] on, with the span of each result
    of [asc] (results by increasing span) replaced by the lines of its
    resolution if the result is applied, and kept if it is not; all
    lines outside these spans are kept. *)
Fixpoint replace_spans (lines : list jsstring) (pos : Z) (asc : list ResolutionResult)
  : list jsstring :=
  match asc with
  | [] => skipn (Z.to_nat pos) lines
  | r :: asc' =>
      span_lines lines pos (startLine (rr_conflict r))
      ++ (if applied r
          then split_lf (normalize_eol (resolution (rr_resolution r)))
          else span_lines lines (startLine (rr_conflict r))
                          (endLine (rr_conflict r) + 1))
      ++ replace_spans lines (endLine (rr_conflict r) + 1) asc'
  end.

(** What the batch does for the entry [e] of the map of conflicts, from
    the workspace [ws] to the workspace [ws']: [run] holds its results.
    The entry holds the conflicts of its document; the results are those
    of a first part of these conflicts taken from the last to the first,
    in that order, hence by strictly decreasing [startLine]; and the
    document afterwards is the original one with the spans of the
    applied results replaced by their resolutions. *)
Definition bottom_up_run (ws ws' : Workspace)
    (e : jsstring * list MergeConflict) (run : list ResolutionResult) : Prop :=
  exists doc doc',
    openTextDocument (fst e) ws = Some doc
    /\ snd e = detectConflictsInFile doc
    /\ (exists todo, rev (snd e) = map rr_conflict run ++ todo)
    /\ StronglySorted (fun a b => startLine b < startLine a) (map rr_conflict run)
    /\ openTextDocument (fst e) ws' = Some doc'
    /\ lines_of doc' = replace_spans (lines_of doc) 0 (rev run).

(** Worlds [quiet] in which the batch is never interrupted: the token is
    not cancelled, no message box is answered with 'Cancel', and every
    call of the batch leads to such a world again. *)
Definition uninterrupted {World : Type} `{Host World} (quiet : World -> Prop) : Prop :=
  forall w, quiet w ->
    isCancellationRequested w = false
    /\ (forall e, quiet (snd (applyEdit e w)))
    /\ (forall file, quiet (save file w))
    /\ (forall path, fst (showWarningMessage path w) <> Some CancelApply
                     /\ quiet (snd (showWarningMessage path w)))
    /\ (forall text, fst (showErrorMessage text w) <> Some CancelBatch
                     /\ quiet (snd (showErrorMessage text w)))
    /\ (forall provider request,
          currentProvider w = Some provider ->
          quiet (snd (provider_resolveConflict provider request w)))
    /\ quiet (snd (findFiles w)).

(** ** A scripted outside world

    An outside world that answers from scripts, call after call, and
    keeps the calls its transport has received.  It runs the model on
    concrete inputs.  Its [JSON.parse] knows the text [null] and rejects
    every other reply; its active backend is Ollama with the default
    settings. *)
Record Scripted : Type := {
  replies : list (TransportFailure + jsstring);
  edits : list bool;
  warnings : list (option WarningItem);
  errors : list (option ErrorItem);
  cancelled : bool;
  files : list jsstring;
  sent : list ModelCall
}.

Definition unreachable : TransportFailure :=
  {| failure_message := js "connect ECONNREFUSED";
     failure_text := js "Error: connect ECONNREFUSED";
     failure_api_message := None |}.

#[export] Instance scripted_transports : Transports Scripted := {
  transport := fun _ call w =>
    (hd (inl unreachable) (replies w),
     {| replies := tl (replies w); edits := edits w; warnings := warnings w;
        errors := errors w; cancelled := cancelled w; files := files w;
        sent := sent w ++ [call] |});
  JSON_parse := fun text =>
    if jsstring_eqb text (js "null") then Some JsonNull else None;
  null_read_text := js "TypeError: Cannot read properties of null";
  null_read_message := js "Cannot read properties of null"
}.

Definition default_settings : Settings :=
  {| ollamaUrl := js "http://localhost:11434";
     ollamaModel := js "codellama";
     openaiModel := js "gpt-4";
     claudeModel := js "claude-3-opus-20240229" |}.

#[export] Instance scripted_host : Host Scripted := {
  currentProvider := fun _ =>
    Some (AIProviderManager.switchProvider default_settings None ollama);
  isCancellationRequested := cancelled;
  applyEdit := fun _ w =>
    (hd true (edits w),
     {| replies := replies w; edits := tl (edits w); warnings := warnings w;
        errors := errors w; cancelled := cancelled w; files := files w;
        sent := sent w |});
  save := fun _ w => w;
  showWarningMessage := fun _ w =>
    (hd None (warnings w),
     {| replies := replies w; edits := edits w; warnings := tl (warnings w);
        errors := errors w; cancelled := cancelled w; files := files w;
        sent := sent w |});
  showErrorMessage := fun _ w =>
    (hd None (errors w),
     {| replies := replies w; edits := edits w; warnings := warnings w;
        errors := tl (errors w); cancelled := cancelled w; files := files w;
        sent := sent w |});
  findFiles := fun w => (files w, w)
}.

(** The world whose transport will answer [rs], with one file found,
    every edit applied, every message box dismissed and no cancellation. *)
Definition script (rs : list (TransportFailure + jsstring)) : Scripted :=
  {| replies := rs; edits := []; warnings := []; errors := [];
     cancelled := false; files := [js "test.js"]; sent := [] |}.

(** The scripted worlds without cancellation and without 'Cancel' among
    the answers still to come. *)
Definition scripted_quiet (w : Scripted) : Prop :=
  cancelled w = false
  /\ Forall (fun a => a <> Some CancelApply) (warnings w)
  /\ Forall (fun a => a <> Some CancelBatch) (errors w).

(** A hosted configuration with a key, and a request. *)
Definition keyed_config : AIProviderConfig :=
  AIProviderManager.getProviderConfig default_settings (Some (js "sk-test")) openai.

Definition sample_request : ConflictResolutionRequest :=
  {| req_currentContent := js "a = 1";
     req_incomingContent := js "a = 2";
     req_baseContent := None;
     req_context := [];
     req_filePath := js "test.js";
     req_language := Some (js "javascript") |}.

(** The documents of the test suite of the repository. *)
Definition document_of (text : string) : TextDocument :=
  {| fileName := js "test.js"; languageId := js "javascript"; getText := js text |}.

(** 'should check if document has conflicts', with single quotes in
    place of the double quotes of its two string literals. *)
Definition conflictContent : TextDocument :=
  document_of
"function test() {
<<<<<<< HEAD
    return 'HEAD';
=======
    return 'branch';
>>>>>>> feature
}".

(** 'should detect multiple merge conflicts': blocks at lines 1-5 and 9-13. *)
Definition twoConflicts : TextDocument :=
  document_of
"function first() {
<<<<<<< HEAD
    return 'first HEAD';
=======
    return 'first branch';
>>>>>>> feature
}

function second() {
<<<<<<< HEAD
    return 'second HEAD';
=======
    return 'second branch';
>>>>>>> feature
}".

Definition firstConflict : MergeConflict :=
  block_record (js "test.js") 1
    [js "    return 'first HEAD';"] [js "    return 'first branch';"].

Definition secondConflict : MergeConflict :=
  block_record (js "test.js") 9
    [js "    return 'second HEAD';"] [js "    return 'second branch';"].

(** A block that ends without a separator line. *)
Definition noSeparator : TextDocument :=
  document_of
"<<<<<<< HEAD
foo
>>>>>>> feature".

(** The lines the pattern [/^a{7}\s+G$/] accepts, spelled out: seven
    [a], one or more white-space code units, then a label without line
    terminators, which may be empty. *)
Definition marker_line (a : ascii) (line : jsstring) : Prop :=
  exists ws label,
    line = repeat (N_of_ascii a) 7 ++ ws ++ label
    /\ ws <> []
    /\ forallb Regex.is_space ws = true
    /\ forallb Regex.is_dot label = true.

(* ================================================================= *)
(** * Further operations of the sources *)

(** [String.prototype.startsWith] *)
Fixpoint starts_with (s prefix : jsstring) : bool :=
  match prefix, s with
  | [], _ => true
  | p :: prefix', c :: s' => N.eqb c p && starts_with s' prefix'
  | _ :: _, [] => false
  end.

(** [OllamaProvider.validateConfiguration], on the outcome of
    [this.ollama.list()]: the names of the available models, or the
    failure the call threw. *)
Definition Ollama_validateConfiguration (config : AIProviderConfig)
    (listing : TransportFailure + list jsstring) : bool :=
  match listing with
  | inl _ => false
  | inr names =>
      let modelName := or_string (model config) (js "codellama") in
      existsb (fun name => jsstring_eqb name modelName || starts_with name modelName)
              names
  end.

(** [UIManager.showDiffPreview]: the text of the document shown on the
    left of the diff. *)
Definition diffOriginalContent (conflict : MergeConflict) : jsstring :=
  js "<<<<<<< HEAD" ++ [LF] ++ currentContent conflict ++ [LF]
    ++ js "=======" ++ [LF] ++ incomingContent conflict ++ [LF]
    ++ js ">>>>>>> incoming".

(** ** The secrets of the backend selector *)

(** [context.secrets], a store of strings by key. *)
Definition SecretStorage : Type := list (jsstring * jsstring).

Fixpoint secrets_get (k : jsstring) (m : SecretStorage) : option jsstring :=
  match m with
  | [] => None
  | (k0, v) :: rest => if jsstring_eqb k0 k then Some v else secrets_get k rest
  end.

Definition secrets_store (k v : jsstring) (m : SecretStorage) : SecretStorage :=
  map_set k v m.

Definition secrets_delete (k : jsstring) (m : SecretStorage) : SecretStorage :=
  filter (fun e => negb (jsstring_eqb (fst e) k)) m.

(** [`mergeai.${provider}.apiKey`] *)
Definition secretKey (v : HostedVendor) : jsstring :=
  js "mergeai."
    ++ match v with OpenAI => js "openai" | Claude => js "claude" end
    ++ js ".apiKey".

(** [AIProviderManager.getApiKey(provider)]: the key and the store after
    the call; [answer] is what the input box returns if it is shown. *)
Definition getApiKey (v : HostedVendor) (answer : option jsstring)
    (secrets : SecretStorage) : option jsstring * SecretStorage :=
  match secrets_get (secretKey v) secrets with
  | Some (c :: k) => (Some (c :: k), secrets)
  | _ =>
      match answer with
      | Some (c :: a) => (Some (c :: a), secrets_store (secretKey v) (c :: a) secrets)
      | _ => (answer, secrets)
      end
  end.

(** The state of [AIProviderManager]: the provider installed, by the
    arguments of its constructor, and the secret store. *)
Record ManagerState : Type := {
  installed : option (ProviderType * AIProviderConfig);
  secrets : SecretStorage
}.

Definition ProviderType_eqb (a b : ProviderType) : bool :=
  match a, b with
  | ollama, ollama => true
  | openai, openai => true
  | claude, claude => true
  | _, _ => false
  end.

(** [getProviderConfig(type)] with its call to [getApiKey]. *)
Definition Manager_getProviderConfig (settings : Settings) (type : ProviderType)
    (answer : option jsstring) (store : SecretStorage)
  : AIProviderConfig * SecretStorage :=
  match type with
  | ollama =>
      (AIProviderManager.getProviderConfig settings None ollama, store)
  | openai =>
      let (key, store') := getApiKey OpenAI answer store in
      (AIProviderManager.getProviderConfig settings key openai, store')
  | claude =>
      let (key, store') := getApiKey Claude answer store in
      (AIProviderManager.getProviderConfig settings key claude, store')
  end.

(** [switchProvider(type)]; the validation that follows only shows a
    warning. *)
Definition Manager_switchProvider (settings : Settings) (type : ProviderType)
    (answer : option jsstring) (st : ManagerState) : ManagerState :=
  let (config, store') := Manager_getProviderConfig settings type answer (secrets st) in
  {| installed := Some (type, config); secrets := store' |}.

(** [updateApiKey(provider, apiKey)]; [configured] is
    [configManager.getProviderType()]. *)
Definition Manager_updateApiKey (settings : Settings) (configured : ProviderType)
    (v : HostedVendor) (key : jsstring) (answer : option jsstring)
    (st : ManagerState) : ManagerState :=
  let st1 := {| installed := installed st;
                secrets := secrets_store (secretKey v) key (secrets st) |} in
  if ProviderType_eqb configured (HostedProvider.type_of v)
  then Manager_switchProvider settings configured answer st1
  else st1.

(** [clearApiKey(provider)] *)
Definition Manager_clearApiKey (v : HostedVendor) (st : ManagerState) : ManagerState :=
  {| installed := installed st;
     secrets := secrets_delete (secretKey v) (secrets st) |}.

(** ** Vocabulary of the further statements *)

(** A record moved down by [k] lines. *)
Definition shift_conflict (k : Z) (c : MergeConflict) : MergeConflict :=
  {| startLine := startLine c + k;
     endLine := endLine c + k;
     currentStart := currentStart c + k;
     currentEnd := option_map (fun x => x + k) (currentEnd c);
     incomingStart := option_map (fun x => x + k) (incomingStart c);
     incomingEnd := incomingEnd c + k;
     separatorLine := option_map (fun x => x + k) (separatorLine c);
     currentContent := currentContent c;
     incomingContent := incomingContent c;
     baseContent := baseContent c;
     filePath := filePath c |}.

Definition shift_partial (k : Z) (p : PartialConflict) : PartialConflict :=
  {| p_startLine := p_startLine p + k;
     p_currentStart := p_currentStart p + k;
     p_filePath := p_filePath p;
     p_currentEnd := option_map (fun x => x + k) (p_currentEnd p);
     p_separatorLine := option_map (fun x => x + k) (p_separatorLine p);
     p_incomingStart := option_map (fun x => x + k) (p_incomingStart p) |}.

(** A parser state with the conflicts [cs0] found earlier put in front
    and its own line numbers moved down by [k]. *)
Definition relocate (cs0 : list MergeConflict) (k : Z) (st : ParserState)
  : ParserState :=
  {| conflicts := cs0 ++ map (shift_conflict k) (conflicts st);
     inConflict := inConflict st;
     currentConflict := option_map (shift_partial k) (currentConflict st);
     section := section st;
     currentBuf := currentBuf st; baseBuf := baseBuf st;
     incomingBuf := incomingBuf st |}.

(** The record of a 3-way block whose start marker is line [i] of
    [file], with the lines [cur], [bas] and [inc] in its three sections. *)
Definition block3_record (file : jsstring) (i : Z) (cur bas inc : list jsstring)
  : MergeConflict :=
  let n := Z.of_nat (length cur) in
  let b := Z.of_nat (length bas) in
  let m := Z.of_nat (length inc) in
  {| startLine := i;
     endLine := i + n + b + m + 3;
     currentStart := i + 1;
     currentEnd := Some (i + n + b + 1);
     incomingStart := Some (i + n + b + 3);
     incomingEnd := i + n + b + m + 2;
     separatorLine := Some (i + n + b + 2);
     currentContent := join_lf cur;
     incomingContent := join_lf inc;
     baseContent := match bas with [] => None | _ => Some (join_lf bas) end;
     filePath := file |}.

(** What holds of the buffers of the parser: their lines are content
    lines, which match none of the patterns. *)
Definition content_buffers (st : ParserState) : Prop :=
  Forall (fun l => is_marker l = false) (currentBuf st)
  /\ Forall (fun l => is_marker l = false) (incomingBuf st).

(** A record whose two contents are made of content lines without line
    feeds. *)
Definition made_of_content (c : MergeConflict) : Prop :=
  exists cur inc,
    currentContent c = join_lf cur /\ incomingContent c = join_lf inc
    /\ Forall (fun l => is_marker l = false) cur /\ Forall no_lf cur
    /\ Forall (fun l => is_marker l = false) inc /\ Forall no_lf inc.

(** A result either applied without error text, or carrying one. *)
Definition result_consistent (r : ResolutionResult) : Prop :=
  (error r = None -> applied r = true)
  /\ (applied r = false -> error r <> None).

(** The name a backend gives itself in its error texts. *)
Definition backend_name (type : ProviderType) : jsstring :=
  match type with
  | ollama => js "Ollama"
  | openai => js "OpenAI"
  | claude => js "Claude"
  end.

(** A secret store with a key for OpenAI only. *)
Definition oneSecret : ManagerState :=
  {| installed := None;
     secrets := [(secretKey OpenAI, js "sk-old")] |}.

(** A world in which the first edit fails, the user asks to retry and
    the second edit is applied. *)
Definition retryWorld : Scripted :=
  {| replies := [inr (js "merged")]; edits := [false; true];
     warnings := [Some Retry]; errors := [];
     cancelled := false; files := [js "test.js"]; sent := [] |}.

(** A document with a 2-way block at lines 3-7 of ten lines. *)
Definition tenLines : TextDocument :=
  document_of
"line 0
line 1
line 2
<<<<<<< HEAD
ours
=======
theirs
>>>>>>> feature
line 8
line 9".

(** 'should detect 3-way merge conflict with base', with single quotes. *)
Definition threeWay : TextDocument :=
  document_of
"function test() {
<<<<<<< HEAD
    console.log('HEAD version');
||||||| base
    console.log('base version');
=======
    console.log('branch version');
>>>>>>> feature
}".

(* ================================================================= *)
(** * Facts about strings and lines *)

Lemma split_lf_nonempty (text : jsstring) : split_lf text <> [].
Proof.
  destruct text as [|c rest]; simpl; [discriminate|].
  destruct (N.eqb c LF); [discriminate|].
  destruct (split_lf rest); discriminate.
Qed.

Lemma split_lf_line (l : jsstring) : no_lf l -> split_lf l = [l].
Proof.
  unfold no_lf. induction l as [|c l IH]; intros Hl; simpl; [reflexivity|].
  destruct (N.eqb_spec c LF) as [->|Hc].
  - exfalso. apply Hl. left. reflexivity.
  - rewrite IH; [reflexivity|]. intros Hin. apply Hl. right. exact Hin.
Qed.

Lemma split_lf_app_lf (l rest : jsstring) :
  no_lf l -> split_lf (l ++ LF :: rest) = l :: split_lf rest.
Proof.
  unfold no_lf. induction l as [|c l IH]; intros Hl; simpl.
  - reflexivity.
  - destruct (N.eqb_spec c LF) as [->|Hc].
    + exfalso. apply Hl. left. reflexivity.
    + rewrite IH; [reflexivity|]. intros Hin. apply Hl. right. exact Hin.
Qed.

(** Splitting undoes joining, for lines without line feeds. *)
Lemma split_join_lf (lines : list jsstring) :
  lines <> [] -> Forall no_lf lines -> split_lf (join_lf lines) = lines.
Proof.
  induction lines as [|l ls IH]; intros Hne Hall; [congruence|].
  inversion Hall as [|? ? Hl Hls]; subst.
  destruct ls as [|l' ls'].
  - simpl. apply split_lf_line. exact Hl.
  - change (join_lf (l :: l' :: ls')) with (l ++ LF :: join_lf (l' :: ls')).
    rewrite split_lf_app_lf by exact Hl.
    rewrite IH; [reflexivity|discriminate|exact Hls].
Qed.

Lemma split_lf_no_lf (text : jsstring) : Forall no_lf (split_lf text).
Proof.
  induction text as [|c rest IH]; simpl.
  - constructor; [|constructor]. intros [].
  - destruct (N.eqb_spec c LF) as [->|Hc].
    + constructor; [intros []|exact IH].
    + destruct (split_lf rest) as [|l ls].
      * constructor; [|constructor]. intros [H|[]]. congruence.
      * inversion IH; subst. constructor; [|assumption].
        intros [H|H]; [congruence|contradiction].
Qed.

(** Joining undoes splitting. *)
Lemma join_split_lf (text : jsstring) : join_lf (split_lf text) = text.
Proof.
  induction text as [|c rest IH]; simpl; [reflexivity|].
  destruct (N.eqb_spec c LF) as [->|Hc].
  - pose proof (split_lf_nonempty rest) as Hne.
    destruct (split_lf rest) as [|l ls] eqn:E; [congruence|].
    change (join_lf ([] :: l :: ls)) with ([] ++ LF :: join_lf (l :: ls)).
    rewrite IH. reflexivity.
  - pose proof (split_lf_nonempty rest) as Hne.
    destruct (split_lf rest) as [|l ls] eqn:E; [congruence|].
    destruct ls as [|l' ls'].
    + simpl in *. congruence.
    + change (join_lf ((c :: l) :: l' :: ls'))
        with (c :: (l ++ LF :: join_lf (l' :: ls'))).
      change (join_lf (l :: l' :: ls')) with (l ++ LF :: join_lf (l' :: ls')) in IH.
      congruence.
Qed.

(* ================================================================= *)
(** * Facts about the matcher *)

Module RegexFacts.
Import Regex.

Lemma lang_void_inv (s : jsstring) : lang Void s -> False.
Proof. intros Hl. inversion Hl. Qed.

Lemma lang_eps_inv (s : jsstring) : lang Eps s -> s = [].
Proof. intros Hl. inversion Hl. reflexivity. Qed.

Lemma lang_class_inv (p : char -> bool) (s : jsstring) :
    lang (Class p) s -> exists c, s = [c] /\ p c = true.
Proof. intros Hl. inversion Hl; subst. eexists; split; [reflexivity|assumption]. Qed.

Lemma lang_cat_inv (r1 r2 : t) (s : jsstring) :
    lang (Cat r1 r2) s -> exists s1 s2, s = s1 ++ s2 /\ lang r1 s1 /\ lang r2 s2.
Proof.
    intros Hl. inversion Hl; subst.
    do 2 eexists; split; [reflexivity|split; assumption].
Qed.

Lemma lang_alt_inv (r1 r2 : t) (s : jsstring) :
    lang (Alt r1 r2) s -> lang r1 s \/ lang r2 s.
Proof. intros Hl. inversion Hl; subst; [left|right]; assumption. Qed.

Lemma lang_cat_cons (r1 r2 : t) (c : char) (s1 s2 : jsstring) :
    lang r1 (c :: s1) -> lang r2 s2 -> lang (Cat r1 r2) (c :: s1 ++ s2).
Proof. intros H1 H2. apply (L_cat H1 H2). Qed.

Lemma lang_cat_nil_l (r1 r2 : t) (s : jsstring) :
    lang r1 [] -> lang r2 s -> lang (Cat r1 r2) s.
Proof. intros H1 H2. apply (L_cat H1 H2). Qed.

Lemma nullable_lang (r : t) : nullable r = true <-> lang r [].
Proof.
    induction r as [| |p|r1 IH1 r2 IH2|r1 IH1 r2 IH2|r IH]; simpl.
    - split; [discriminate|]. intros Hl. destruct (lang_void_inv Hl).
    - split; [intros _; constructor|reflexivity].
    - split; [discriminate|]. intros Hl.
      destruct (lang_class_inv Hl) as (c & Heq & _). discriminate.
    - rewrite andb_true_iff, IH1, IH2. split.
      + intros [H1 H2]. apply lang_cat_nil_l; assumption.
      + intros Hl. destruct (lang_cat_inv Hl) as (s1 & s2 & Heq & H1 & H2).
        symmetry in Heq. apply app_eq_nil in Heq. destruct Heq; subst.
        split; assumption.
    - rewrite orb_true_iff, IH1, IH2. split.
      + intros [Hl|Hl]; [apply L_alt_l|apply L_alt_r]; exact Hl.
      + apply lang_alt_inv.
    - split; [intros _; constructor|reflexivity].
Qed.

(** A non-empty word of [r*] starts with a non-empty word of [r]. *)
Lemma star_cons_inv (r : t) (s : jsstring) :
    lang (Star r) s ->
    forall c s', s = c :: s' ->
    exists s1 s2, s' = s1 ++ s2 /\ lang r (c :: s1) /\ lang (Star r) s2.
Proof.
    intros Hl. remember (Star r) as sr eqn:Esr.
    induction Hl as [| | | | | |r0 s1 s2 H1 _ H2 IH2]; try discriminate Esr.
    - intros c s' Heq. discriminate Heq.
    - injection Esr as ->. intros c s' Heq.
      destruct s1 as [|c1 s1'].
      + simpl in Heq. apply (IH2 eq_refl c s' Heq).
      + simpl in Heq. injection Heq as -> <-.
        exists s1', s2. repeat split; assumption.
Qed.

Lemma deriv_lang (r : t) : forall c s, lang (deriv c r) s <-> lang r (c :: s).
Proof.
    induction r as [| |p|r1 IH1 r2 IH2|r1 IH1 r2 IH2|r IH]; intros c s; simpl.
    - split; intros Hl; destruct (lang_void_inv Hl).
    - split; intros Hl; [destruct (lang_void_inv Hl)|].
      apply lang_eps_inv in Hl. discriminate.
    - destruct (p c) eqn:Ep; split; intros Hl.
      + apply lang_eps_inv in Hl. subst. constructor. exact Ep.
      + destruct (lang_class_inv Hl) as (c' & Heq & _).
        injection Heq as _ ->. constructor.
      + destruct (lang_void_inv Hl).
      + destruct (lang_class_inv Hl) as (c' & Heq & Hp).
        injection Heq as -> _. congruence.
    - assert (Hcat : lang (Cat (deriv c r1) r2) s -> lang (Cat r1 r2) (c :: s)).
      { intros Hl. destruct (lang_cat_inv Hl) as (s1 & s2 & -> & H1 & H2).
        apply IH1 in H1. apply lang_cat_cons; assumption. }
      assert (Hinv : lang (Cat r1 r2) (c :: s) ->
                     lang (Cat (deriv c r1) r2) s
                     \/ (lang r1 [] /\ lang r2 (c :: s))).
      { intros Hl. destruct (lang_cat_inv Hl) as (s1 & s2 & Heq & H1 & H2).
        destruct s1 as [|c1 s1'].
        - right. simpl in Heq. subst. split; assumption.
        - left. simpl in Heq. injection Heq as -> ->.
          constructor; [apply IH1|]; assumption. }
      destruct (nullable r1) eqn:En.
      + split; intros Hl.
        * destruct (lang_alt_inv Hl) as [Hl'|Hl']; [apply Hcat; assumption|].
          apply lang_cat_nil_l.
          -- apply nullable_lang. exact En.
          -- apply IH2. assumption.
        * destruct (Hinv Hl) as [H1|[_ H2]].
          -- apply L_alt_l. exact H1.
          -- apply L_alt_r. apply IH2. exact H2.
      + split; intros Hl; [apply Hcat; exact Hl|].
        destruct (Hinv Hl) as [H1|[H1 _]]; [exact H1|].
        apply nullable_lang in H1. congruence.
    - split; intros Hl.
      + destruct (lang_alt_inv Hl) as [Hl'|Hl'].
        * apply L_alt_l. apply IH1. assumption.
        * apply L_alt_r. apply IH2. assumption.
      + destruct (lang_alt_inv Hl) as [Hl'|Hl'].
        * apply L_alt_l. apply IH1. assumption.
        * apply L_alt_r. apply IH2. assumption.
    - split; intros Hl.
      + destruct (lang_cat_inv Hl) as (s1 & s2 & -> & H1 & H2).
        apply IH in H1. change (c :: s1 ++ s2) with ((c :: s1) ++ s2).
        constructor; assumption.
      + destruct (star_cons_inv Hl eq_refl) as (s1 & s2 & -> & H1 & H2).
        constructor; [apply IH|]; assumption.
Qed.

(** The matcher decides membership in the language. *)
Lemma matches_lang (r : t) (s : jsstring) : matches r s = true <-> lang r s.
Proof.
    revert r. induction s as [|c s IH]; intros r; simpl.
    - apply nullable_lang.
    - rewrite IH. apply deriv_lang.
Qed.

Lemma test_lang (r : t) (s : jsstring) : test r s = true <-> lang r s.
Proof. apply matches_lang. Qed.

End RegexFacts.

(* ================================================================= *)
(** * Facts about the marker patterns *)

Module MarkerFacts.
Import Regex RegexFacts.

Lemma lang_times_chr (a : ascii) (n : nat) (s : jsstring) :
  lang (Times n (Chr a)) s <-> s = repeat (N_of_ascii a) n.
Proof.
  revert s. induction n as [|n IH]; intros s; simpl.
  - split; [apply lang_eps_inv|intros ->; constructor].
  - split.
    + intros Hl. destruct (lang_cat_inv Hl) as (s1 & s2 & -> & H1 & H2).
      destruct (lang_class_inv H1) as (c & -> & Hc).
      apply N.eqb_eq in Hc. subst c. apply IH in H2. subst s2. reflexivity.
    + intros ->. change (N_of_ascii a :: repeat (N_of_ascii a) n)
        with ([N_of_ascii a] ++ repeat (N_of_ascii a) n).
      constructor; [|apply IH; reflexivity].
      constructor. apply N.eqb_refl.
Qed.

Lemma lang_star_class (p : char -> bool) (s : jsstring) :
  lang (Star (Class p)) s <-> forallb p s = true.
Proof.
  split.
  - intros Hl. remember (Star (Class p)) as r eqn:Er.
    induction Hl as [| | | | | |r0 s1 s2 H1 _ H2 IH2]; try discriminate Er.
    + reflexivity.
    + injection Er as ->. destruct (lang_class_inv H1) as (c & -> & Hc).
      simpl. rewrite Hc. apply IH2. reflexivity.
  - induction s as [|c s IH]; simpl; intros Hp; [constructor|].
    apply andb_true_iff in Hp. destruct Hp as [Hc Hs].
    change (c :: s) with ([c] ++ s).
    constructor; [constructor; exact Hc|apply IH; exact Hs].
Qed.

Lemma lang_plus_class (p : char -> bool) (s : jsstring) :
  lang (Plus (Class p)) s <-> s <> [] /\ forallb p s = true.
Proof.
  unfold Plus. split.
  - intros Hl. destruct (lang_cat_inv Hl) as (s1 & s2 & -> & H1 & H2).
    destruct (lang_class_inv H1) as (c & -> & Hc).
    apply lang_star_class in H2. simpl. rewrite Hc, H2.
    split; [discriminate|reflexivity].
  - intros [Hne Hp]. destruct s as [|c s]; [congruence|].
    simpl in Hp. apply andb_true_iff in Hp. destruct Hp as [Hc Hs].
    change (c :: s) with ([c] ++ s).
    constructor; [constructor; exact Hc|apply lang_star_class; exact Hs].
Qed.

(** What the three labelled patterns of the sources accept. *)
Lemma test_marker (a : ascii) (line : jsstring) :
  test (Cat (Times 7 (Chr a)) (Cat (Plus Space) (Star Dot))) line = true
  <-> marker_line a line.
Proof.
  rewrite test_lang. unfold marker_line, Space, Dot. split.
  - intros Hl. destruct (lang_cat_inv Hl) as (s1 & s23 & -> & H1 & H23).
    destruct (lang_cat_inv H23) as (s2 & s3 & -> & H2 & H3).
    apply lang_times_chr in H1. apply lang_plus_class in H2.
    apply lang_star_class in H3. destruct H2 as [Hne Hws].
    exists s2, s3. subst s1. repeat split; assumption.
  - intros (ws & label & -> & Hne & Hws & Hlabel).
    constructor; [apply lang_times_chr; reflexivity|].
    constructor; [apply lang_plus_class; split; assumption|].
    apply lang_star_class. exact Hlabel.
Qed.

Lemma test_start (line : jsstring) :
  test conflictStartPattern line = true <-> marker_line "<" line.
Proof. apply test_marker. Qed.

Lemma test_base (line : jsstring) :
  test conflictBasePattern line = true <-> marker_line "|" line.
Proof. apply test_marker. Qed.

Lemma test_end (line : jsstring) :
  test conflictEndPattern line = true <-> marker_line ">" line.
Proof. apply test_marker. Qed.

Lemma test_separator (line : jsstring) :
  test conflictSeparatorPattern line = true <-> line = js "=======".
Proof.
  unfold conflictSeparatorPattern. rewrite test_lang, lang_times_chr.
  reflexivity.
Qed.

(** What the patterns of the specification accept: a marker line whose
    label starts with a code unit that is not white space. *)
Lemma test_spec_labelled (a : ascii) (line : jsstring) :
  test (spec_labelled_marker a) line = true
  <-> exists ws c label,
        line = repeat (N_of_ascii a) 7 ++ ws ++ c :: label
        /\ ws <> []
        /\ forallb is_space ws = true
        /\ is_space c = false
        /\ forallb is_dot label = true.
Proof.
  rewrite test_lang. unfold spec_labelled_marker, Space, NonSpace, Dot. split.
  - intros Hl. destruct (lang_cat_inv Hl) as (s1 & s23 & -> & H1 & H23).
    destruct (lang_cat_inv H23) as (s2 & s34 & -> & H2 & H34).
    destruct (lang_cat_inv H34) as (s3 & s4 & -> & H3 & H4).
    destruct (lang_class_inv H3) as (c & -> & Hc).
    apply lang_times_chr in H1. apply lang_plus_class in H2.
    apply lang_star_class in H4. destruct H2 as [Hne Hws].
    exists s2, c, s4. subst s1. unfold is_non_space in Hc.
    apply negb_true_iff in Hc. repeat split; assumption.
  - intros (ws & c & label & -> & Hne & Hws & Hc & Hlabel).
    constructor; [apply lang_times_chr; reflexivity|].
    constructor; [apply lang_plus_class; split; assumption|].
    change (c :: label) with ([c] ++ label).
    constructor; [|apply lang_star_class; exact Hlabel].
    constructor. unfold is_non_space. rewrite Hc. reflexivity.
Qed.

(** White space includes the line terminators, so a code unit that is
    not white space is matched by [.]. *)
Lemma non_space_is_dot (c : char) : is_space c = false -> is_dot c = true.
Proof.
  unfold is_space, is_dot, is_line_terminator. intros Hc.
  repeat (apply orb_false_iff in Hc; destruct Hc as [Hc ?]).
  repeat match goal with
         | E : N.eqb _ _ = false |- _ => rewrite E; clear E
         end.
  reflexivity.
Qed.

(** A marker line starts with its marker character. *)
Lemma marker_line_head (a : ascii) (line : jsstring) :
  marker_line a line -> exists rest, line = N_of_ascii a :: rest.
Proof.
  intros (ws & label & -> & _). simpl. eexists. reflexivity.
Qed.

(** The four patterns are pairwise disjoint. *)
Lemma start_excludes (line : jsstring) :
  test conflictStartPattern line = true ->
  test conflictSeparatorPattern line = false
  /\ test conflictBasePattern line = false
  /\ test conflictEndPattern line = false.
Proof.
  intros Hs. apply test_start, marker_line_head in Hs. destruct Hs as [rest ->].
  repeat split; apply not_true_is_false; intros Ht.
  - apply test_separator in Ht. discriminate Ht.
  - apply test_base, marker_line_head in Ht. destruct Ht as [? Ht]. discriminate Ht.
  - apply test_end, marker_line_head in Ht. destruct Ht as [? Ht]. discriminate Ht.
Qed.

Lemma separator_excludes (line : jsstring) :
  test conflictSeparatorPattern line = true ->
  test conflictStartPattern line = false
  /\ test conflictBasePattern line = false
  /\ test conflictEndPattern line = false.
Proof.
  intros Hs. apply test_separator in Hs. subst line.
  repeat split; reflexivity.
Qed.

Lemma base_excludes (line : jsstring) :
  test conflictBasePattern line = true ->
  test conflictStartPattern line = false
  /\ test conflictSeparatorPattern line = false
  /\ test conflictEndPattern line = false.
Proof.
  intros Hs. apply test_base, marker_line_head in Hs. destruct Hs as [rest ->].
  repeat split; apply not_true_is_false; intros Ht.
  - apply test_start, marker_line_head in Ht. destruct Ht as [? Ht]. discriminate Ht.
  - apply test_separator in Ht. discriminate Ht.
  - apply test_end, marker_line_head in Ht. destruct Ht as [? Ht]. discriminate Ht.
Qed.

Lemma end_excludes (line : jsstring) :
  test conflictEndPattern line = true ->
  test conflictStartPattern line = false
  /\ test conflictSeparatorPattern line = false
  /\ test conflictBasePattern line = false.
Proof.
  intros Hs. apply test_end, marker_line_head in Hs. destruct Hs as [rest ->].
  repeat split; apply not_true_is_false; intros Ht.
  - apply test_start, marker_line_head in Ht. destruct Ht as [? Ht]. discriminate Ht.
  - apply test_separator in Ht. discriminate Ht.
  - apply test_base, marker_line_head in Ht. destruct Ht as [? Ht]. discriminate Ht.
Qed.

End MarkerFacts.

(* ================================================================= *)
(** * The parser, step by step *)

Module ParserFacts.
Import Regex MarkerFacts.

Lemma scan_app (file : jsstring) (l1 l2 : list jsstring) :
  forall i st,
    scan file (l1 ++ l2) i st
    = scan file l2 (i + Z.of_nat (length l1)) (scan file l1 i st).
Proof.
  induction l1 as [|l l1 IH]; intros i st.
  - simpl. f_equal. lia.
  - cbn [app scan length]. rewrite IH. f_equal. lia.
Qed.

(** A start marker opens a block whatever the state. *)
Lemma step_start (file : jsstring) (i : Z) (line : jsstring) (st : ParserState) :
  test conflictStartPattern line = true ->
  step file i line st = opened file (conflicts st) i.
Proof. intros Hs. unfold step. rewrite Hs. reflexivity. Qed.

(** Outside a block only a start marker changes the state. *)
Lemma step_outside (file : jsstring) (i : Z) (line : jsstring) (st : ParserState) :
  test conflictStartPattern line = false ->
  inConflict st = false ->
  step file i line st = st.
Proof. intros Hs Hin. unfold step. rewrite Hs, Hin. reflexivity. Qed.

Lemma scan_outside (file : jsstring) (ls : list jsstring) :
  forall i st,
    Forall (fun l => is_start l = false) ls ->
    inConflict st = false ->
    scan file ls i st = st.
Proof.
  induction ls as [|l ls IH]; intros i st Hall Hin; [reflexivity|].
  inversion Hall; subst. simpl.
  rewrite step_outside by assumption. apply IH; assumption.
Qed.

(** A line that is no end marker leaves the list of conflicts alone. *)
Lemma step_conflicts (file : jsstring) (i : Z) (line : jsstring) (st : ParserState) :
  test conflictEndPattern line = false ->
  conflicts (step file i line st) = conflicts st.
Proof.
  intros He. unfold step. rewrite He.
  destruct (test conflictStartPattern line); [reflexivity|].
  destruct (inConflict st); simpl; [|reflexivity].
  destruct (test conflictSeparatorPattern line); [reflexivity|].
  destruct (test conflictBasePattern line); [reflexivity|].
  destruct (section st); reflexivity.
Qed.

(** ... and neither closes nor leaves an open block. *)
Lemma step_stays_inside (file : jsstring) (i : Z) (line : jsstring) (st : ParserState) :
  test conflictEndPattern line = false ->
  inConflict st = true ->
  inConflict (step file i line st) = true.
Proof.
  intros He Hin. unfold step. rewrite He, Hin.
  destruct (test conflictStartPattern line); [reflexivity|]. simpl.
  destruct (test conflictSeparatorPattern line); [reflexivity|].
  destruct (test conflictBasePattern line); [reflexivity|].
  destruct (section st); reflexivity.
Qed.

Lemma scan_without_end (file : jsstring) (ls : list jsstring) :
  forall i st,
    Forall (fun l => is_end l = false) ls ->
    conflicts (scan file ls i st) = conflicts st
    /\ (inConflict st = true -> inConflict (scan file ls i st) = true).
Proof.
  induction ls as [|l ls IH]; intros i st Hall; [split; auto|].
  inversion Hall as [|? ? Hl Hls]; subst. simpl.
  destruct (IH (i + 1) (step file i l st) Hls) as [Hc Hi]. split.
  - rewrite Hc. apply step_conflicts. exact Hl.
  - intros Hin. apply Hi. apply step_stays_inside; assumption.
Qed.

Lemma is_marker_false (line : jsstring) :
  is_marker line = false ->
  test conflictStartPattern line = false
  /\ test conflictSeparatorPattern line = false
  /\ test conflictBasePattern line = false
  /\ test conflictEndPattern line = false.
Proof.
  unfold is_marker. intros Hm.
  repeat (apply orb_false_iff in Hm; destruct Hm as [Hm ?]). auto.
Qed.

Lemma step_content (file : jsstring) (i : Z) (line : jsstring) (st : ParserState) :
  is_marker line = false ->
  inConflict st = true ->
  step file i line st = add_content [line] st.
Proof.
  intros Hm Hin. apply is_marker_false in Hm.
  destruct Hm as (Hs & Hp & Hb & He).
  unfold step, add_content. rewrite Hs, Hp, Hb, He, Hin. simpl.
  destruct (section st); reflexivity.
Qed.

Lemma add_content_nil (st : ParserState) : add_content [] st = st.
Proof.
  destruct st as [cs ic cc sec cb bb ib]. unfold add_content. simpl.
  rewrite !app_nil_r. destruct sec; reflexivity.
Qed.

Lemma add_content_app (l1 l2 : list jsstring) (st : ParserState) :
  add_content l2 (add_content l1 st) = add_content (l1 ++ l2) st.
Proof.
  unfold add_content. simpl. destruct (section st); rewrite ?app_assoc; reflexivity.
Qed.

Lemma scan_content (file : jsstring) (ls : list jsstring) :
  forall i st,
    Forall (fun l => is_marker l = false) ls ->
    inConflict st = true ->
    scan file ls i st = add_content ls st.
Proof.
  induction ls as [|l ls IH]; intros i st Hall Hin.
  - simpl. symmetry. apply add_content_nil.
  - inversion Hall; subst. simpl.
    rewrite step_content by assumption.
    rewrite IH by (try assumption; exact Hin).
    apply (add_content_app [l] ls).
Qed.

(** The separator and the end marker inside a block. *)
Lemma step_separator (file : jsstring) (i : Z) (line : jsstring) (st : ParserState) :
  test conflictSeparatorPattern line = true ->
  inConflict st = true ->
  step file i line st
  = {| conflicts := conflicts st;
       inConflict := true;
       currentConflict :=
         match currentConflict st with
         | Some p =>
             Some {| p_startLine := p_startLine p;
                     p_currentStart := p_currentStart p;
                     p_filePath := p_filePath p;
                     p_currentEnd := Some (i - 1);
                     p_separatorLine := Some i;
                     p_incomingStart := Some (i + 1) |}
         | None => None
         end;
       section := incoming;
       currentBuf := currentBuf st; baseBuf := baseBuf st;
       incomingBuf := incomingBuf st |}.
Proof.
  intros Hp Hin. destruct (separator_excludes _ Hp) as (Hs & _ & _).
  unfold step. rewrite Hs, Hp, Hin. reflexivity.
Qed.

Lemma step_end (file : jsstring) (i : Z) (line : jsstring) (st : ParserState) :
  test conflictEndPattern line = true ->
  inConflict st = true ->
  step file i line st
  = {| conflicts :=
         match currentConflict st with
         | Some p => conflicts st ++ [finish p i st]
         | None => conflicts st
         end;
       inConflict := false;
       currentConflict := None;
       section := section st;
       currentBuf := currentBuf st; baseBuf := baseBuf st;
       incomingBuf := incomingBuf st |}.
Proof.
  intros He Hin. destruct (end_excludes _ He) as (Hs & Hp & Hb).
  unfold step. rewrite Hs, Hp, Hb, He, Hin. reflexivity.
Qed.

End ParserFacts.

(* ================================================================= *)
(** * Spans of the detected conflicts *)

Module SpanFacts.
Import Regex MarkerFacts ParserFacts.

Lemma well_spanned_mono (n m : Z) (c : MergeConflict) :
  n <= m -> well_spanned n c -> well_spanned m c.
Proof. unfold well_spanned. intros Hle (H0 & H1 & H2 & H3). repeat split; [lia..|exact H3]. Qed.

Lemma Forall_well_spanned_mono (n m : Z) (cs : list MergeConflict) :
  n <= m -> Forall (well_spanned n) cs -> Forall (well_spanned m) cs.
Proof.
  intros Hle Hall. eapply Forall_impl; [|exact Hall].
  intros c. apply well_spanned_mono. exact Hle.
Qed.

Lemma in_document_order_snoc (cs : list MergeConflict) (c : MergeConflict) :
  in_document_order cs ->
  Forall (fun a => endLine a < startLine c) cs ->
  in_document_order (cs ++ [c]).
Proof.
  unfold in_document_order. induction cs as [|a cs IH]; intros Hs Hall; simpl.
  - constructor; constructor.
  - inversion Hs; subst. inversion Hall; subst.
    constructor; [apply IH; assumption|].
    apply Forall_app. split; [assumption|]. constructor; [assumption|constructor].
Qed.

Lemma parser_inv_initial : parser_inv 0 initialState.
Proof. unfold parser_inv. simpl. repeat split; constructor. Qed.

Lemma step_inv (file : jsstring) (i : Z) (line : jsstring) (st : ParserState) :
  0 <= i -> parser_inv i st -> parser_inv (i + 1) (step file i line st).
Proof.
  intros Hi (Hspan & Hord & Hcur).
  assert (Hspan' : Forall (well_spanned (i + 1)) (conflicts st))
    by (apply Forall_well_spanned_mono with (n := i); [lia|exact Hspan]).
  assert (Hkeep : parser_inv (i + 1)
            {| conflicts := conflicts st; inConflict := inConflict st;
               currentConflict := currentConflict st; section := section st;
               currentBuf := currentBuf st; baseBuf := baseBuf st;
               incomingBuf := incomingBuf st |}).
  { unfold parser_inv. simpl. repeat split; try assumption.
    destruct (currentConflict st) as [p|]; [|exact I].
    destruct Hcur as (H0 & H1 & H2 & H3). repeat split; try assumption; try lia.
    destruct (p_separatorLine p); [|exact I]. lia. }
  unfold step.
  destruct (test conflictStartPattern line).
  { unfold parser_inv. simpl. repeat split; try assumption; try lia.
    eapply Forall_impl; [|exact Hspan]. unfold well_spanned. intros c Hc. lia. }
  destruct (inConflict st); simpl; [|destruct st; exact Hkeep].
  destruct (test conflictSeparatorPattern line).
  { unfold parser_inv. simpl. repeat split; try assumption.
    destruct (currentConflict st) as [p|]; [|exact I]. simpl.
    destruct Hcur as (H0 & H1 & H2 & H3). repeat split; try assumption; lia. }
  destruct (test conflictBasePattern line).
  { unfold parser_inv in *. simpl in *. exact Hkeep. }
  destruct (test conflictEndPattern line).
  { unfold parser_inv. simpl.
    destruct (currentConflict st) as [p|]; [|repeat split; assumption].
    destruct Hcur as (H0 & H1 & H2 & H3). repeat split.
    - apply Forall_app. split; [exact Hspan'|]. constructor; [|constructor].
      unfold well_spanned, finish. simpl. repeat split; try lia.
      destruct (p_separatorLine p); [lia|exact I].
    - apply in_document_order_snoc; [exact Hord|]. exact H2. }
  destruct (section st); unfold parser_inv in *; simpl in *; exact Hkeep.
Qed.

Lemma scan_inv (file : jsstring) (ls : list jsstring) :
  forall i st,
    0 <= i -> parser_inv i st ->
    parser_inv (i + Z.of_nat (length ls)) (scan file ls i st).
Proof.
  induction ls as [|l ls IH]; intros i st Hi Hinv.
  - simpl. replace (i + 0) with i by lia. exact Hinv.
  - cbn [scan length]. replace (i + Z.of_nat (S (length ls)))
      with ((i + 1) + Z.of_nat (length ls)) by lia.
    apply IH; [lia|]. apply step_inv; assumption.
Qed.

(** Every detected conflict lies inside the document, with its start
    line before its end line, and the conflicts come in document order
    without overlap. *)
Lemma detect_spans (file : jsstring) (ls : list jsstring) :
  Forall (well_spanned (Z.of_nat (length ls))) (detectConflictsInLines file ls)
  /\ in_document_order (detectConflictsInLines file ls).
Proof.
  unfold detectConflictsInLines.
  destruct (scan_inv file ls (i := 0) (Z.le_refl 0) parser_inv_initial) as (H1 & H2 & _).
  split; assumption.
Qed.

End SpanFacts.

(* ================================================================= *)
(** * The conflict-marker parser: the properties of the specification *)


Import Regex RegexFacts MarkerFacts ParserFacts SpanFacts.

(** A whole 2-way block read from any state adds its record. *)
Lemma scan_block (file : jsstring) (s p e : jsstring) (cur inc : list jsstring)
    (i : Z) (st : ParserState) :
  test conflictStartPattern s = true ->
  Forall (fun l => is_marker l = false) cur ->
  test conflictSeparatorPattern p = true ->
  Forall (fun l => is_marker l = false) inc ->
  test conflictEndPattern e = true ->
  scan file (s :: cur ++ p :: inc ++ [e]) i st
  = {| conflicts := conflicts st ++ [block_record file i cur inc];
       inConflict := false;
       currentConflict := None;
       section := incoming;
       currentBuf := cur; baseBuf := []; incomingBuf := inc |}.
Proof.
  intros Hs Hcur Hp Hinc He.
  cbn [scan]. rewrite step_start by exact Hs.
  rewrite scan_app. rewrite (@scan_content file cur _ _ Hcur) by reflexivity.
  cbn [scan]. rewrite step_separator by (try exact Hp; reflexivity).
  rewrite scan_app. rewrite (@scan_content file inc _ _ Hinc) by reflexivity.
  cbn [scan]. rewrite step_end by (try exact He; reflexivity).
  unfold add_content, opened, finish, block_record. simpl.
  do 4 f_equal; try lia; f_equal; lia.
Qed.

(** C1.  A document whose lines are: lines without start marker, one
    well-formed 2-way block (start marker, N content lines, separator, M
    content lines, end marker), lines without start marker.
    [detectConflictsInFile] returns exactly one record; its
    [currentContent] is the N lines joined by line feeds, its
    [incomingContent] the M lines joined by line feeds, and
    [endLine - startLine = N + M + 2]. *)
Theorem detect_well_formed_block (document : TextDocument)
    (pre cur inc post : list jsstring) (s p e : jsstring) :
  split_lf (getText document) = pre ++ (s :: cur ++ p :: inc ++ [e]) ++ post ->
  Forall (fun l => is_start l = false) pre ->
  test conflictStartPattern s = true ->
  Forall (fun l => is_marker l = false) cur ->
  test conflictSeparatorPattern p = true ->
  Forall (fun l => is_marker l = false) inc ->
  test conflictEndPattern e = true ->
  Forall (fun l => is_start l = false) post ->
  exists c,
    detectConflictsInFile document = [c]
    /\ c = block_record (fileName document) (Z.of_nat (length pre)) cur inc
    /\ currentContent c = join_lf cur
    /\ incomingContent c = join_lf inc
    /\ endLine c - startLine c
       = Z.of_nat (length cur) + Z.of_nat (length inc) + 2.
Proof.
  intros Hlines Hpre Hs Hcur Hp Hinc He Hpost.
  exists (block_record (fileName document) (Z.of_nat (length pre)) cur inc).
  split; [|split; [reflexivity|split; [reflexivity|split; [reflexivity|]]]].
  - unfold detectConflictsInFile, detectConflictsInLines. rewrite Hlines.
    rewrite scan_app, (@scan_outside _ pre _ _ Hpre) by reflexivity.
    rewrite scan_app, scan_block by assumption.
    rewrite (@scan_outside _ post _ _ Hpost) by reflexivity.
    reflexivity.
  - unfold block_record. simpl. lia.
Qed.

Lemma detect_well_formed_block_witness :
  exists c,
    detectConflictsInFile conflictContent = [c]
    /\ c = block_record (js "test.js") 1 [js "    return 'HEAD';"] [js "    return 'branch';"]
    /\ currentContent c = js "    return 'HEAD';"
    /\ incomingContent c = js "    return 'branch';"
    /\ endLine c - startLine c = 1 + 1 + 2.
Proof.
  apply (@detect_well_formed_block conflictContent
           [js "function test() {"] [js "    return 'HEAD';"]
           [js "    return 'branch';"] [js "}"]
           (js "<<<<<<< HEAD") (js "=======") (js ">>>>>>> feature")).
  - reflexivity.
  - repeat constructor.
  - reflexivity.
  - repeat constructor.
  - reflexivity.
  - repeat constructor.
  - reflexivity.
  - repeat constructor.
Defined.

(** C2.  If a start-marker line is followed by no end-marker line up to
    the end of the text, the parser ends inside an open block and returns
    only what it had found before that start marker: no record for the
    unterminated block.  The function is total: parsing cannot raise. *)
Theorem unterminated_block_yields_nothing (document : TextDocument)
    (pre rest : list jsstring) (s : jsstring) :
  split_lf (getText document) = pre ++ s :: rest ->
  test conflictStartPattern s = true ->
  Forall (fun l => is_end l = false) rest ->
  detectConflictsInFile document = detectConflictsInLines (fileName document) pre
  /\ Forall (fun c => endLine c < Z.of_nat (length pre))
            (detectConflictsInFile document)
  /\ inConflict (scan (fileName document) (split_lf (getText document)) 0 initialState)
     = true.
Proof.
  intros Hlines Hs Hrest.
  assert (Hscan : scan (fileName document) (split_lf (getText document)) 0 initialState
                  = scan (fileName document) rest (0 + Z.of_nat (length pre) + 1)
                      (opened (fileName document)
                         (detectConflictsInLines (fileName document) pre)
                         (0 + Z.of_nat (length pre)))).
  { rewrite Hlines, scan_app. cbn [scan]. rewrite step_start by exact Hs. reflexivity. }
  assert (Heq : detectConflictsInFile document
                = detectConflictsInLines (fileName document) pre).
  { unfold detectConflictsInFile. unfold detectConflictsInLines at 1.
    rewrite Hscan. apply scan_without_end. exact Hrest. }
  split; [exact Heq|split].
  - rewrite Heq. destruct (detect_spans (fileName document) pre) as [Hspan _].
    eapply Forall_impl; [|exact Hspan]. unfold well_spanned. intros c Hc. lia.
  - rewrite Hscan. apply scan_without_end; [exact Hrest|reflexivity].
Qed.

Lemma unterminated_block_yields_nothing_witness :
  let document := document_of "function test() {
<<<<<<< HEAD
    some content
// Missing separator or end marker
}" in
  detectConflictsInFile document
  = detectConflictsInLines (js "test.js") [js "function test() {"]
  /\ Forall (fun c => endLine c < 1) (detectConflictsInFile document)
  /\ inConflict (scan (js "test.js") (split_lf (getText document)) 0 initialState)
     = true.
Proof.
  apply (@unterminated_block_yields_nothing
           (document_of "function test() {
<<<<<<< HEAD
    some content
// Missing separator or end marker
}")
           [js "function test() {"]
           [js "    some content"; js "// Missing separator or end marker"; js "}"]
           (js "<<<<<<< HEAD")).
  - reflexivity.
  - reflexivity.
  - repeat constructor.
Defined.

(** C10.  A line matching the start pattern takes the start branch in
    every parser state: the state after it is that of a block just
    opened at this line, the conflicts found so far unchanged, the
    buffers empty.  In particular a start marker met inside an unfinished
    block (opened at [s1], no end marker since) discards that block
    without a record and opens the new one. *)
Theorem start_marker_resets (file : jsstring) (line : jsstring) :
  test conflictStartPattern line = true ->
  (forall i st, step file i line st = opened file (conflicts st) i)
  /\ (forall pre s1 mid,
        test conflictStartPattern s1 = true ->
        Forall (fun l => is_end l = false) mid ->
        scan file (pre ++ s1 :: mid ++ [line]) 0 initialState
        = opened file (detectConflictsInLines file pre)
            (Z.of_nat (length pre) + 1 + Z.of_nat (length mid))).
Proof.
  intros Hline. split.
  - intros i st. apply step_start. exact Hline.
  - intros pre s1 mid Hs1 Hmid.
    rewrite scan_app. cbn [scan]. rewrite step_start by exact Hs1.
    rewrite scan_app. cbn [scan]. rewrite step_start by exact Hline.
    destruct (@scan_without_end file mid (0 + Z.of_nat (length pre) + 1)
                (opened file (conflicts (scan file pre 0 initialState))
                   (0 + Z.of_nat (length pre))) Hmid) as [Hc _].
    rewrite Hc. unfold detectConflictsInLines. simpl. reflexivity.
Qed.

Lemma start_marker_resets_witness :
  (forall i st,
      step (js "a.c") i (js "<<<<<<< theirs") st = opened (js "a.c") (conflicts st) i)
  /\ scan (js "a.c") ([js "x"] ++ js "<<<<<<< HEAD" :: [js "ours"; js "======="]
                        ++ [js "<<<<<<< theirs"]) 0 initialState
     = opened (js "a.c") [] 4.
Proof.
  destruct (@start_marker_resets (js "a.c") (js "<<<<<<< theirs") eq_refl) as [H1 H2].
  split; [exact H1|].
  apply (H2 [js "x"] (js "<<<<<<< HEAD") [js "ours"; js "======="]).
  - reflexivity.
  - repeat constructor.
Defined.

(** C3, at a block that ends without a separator line: the record is
    returned all the same, and its [separatorLine], [currentEnd] and
    [incomingStart] are undefined. *)
Theorem block_without_separator_is_emitted :
  exists c,
    detectConflictsInFile noSeparator = [c]
    /\ startLine c = 0 /\ endLine c = 2
    /\ separatorLine c = None
    /\ currentEnd c = None
    /\ incomingStart c = None.
Proof. eexists. repeat split; reflexivity. Qed.

(** Where a record has a separator line it lies inside the span, and
    every span has its start before its end. *)
Lemma detected_spans (document : TextDocument) :
  Forall (fun c =>
            startLine c < endLine c
            /\ forall s, separatorLine c = Some s -> startLine c < s /\ s < endLine c)
         (detectConflictsInFile document).
Proof.
  destruct (detect_spans (fileName document) (split_lf (getText document))) as [Hspan _].
  eapply Forall_impl; [|exact Hspan].
  intros c (H0 & H1 & H2 & H3). split; [exact H1|].
  intros s Hs. rewrite Hs in H3. exact H3.
Qed.

(** C5, as the specification states it, fails: seven [<] and one space,
    with no label, is a start marker for the parser, though not for the
    pattern of the specification. *)
Lemma blank_label_is_a_start_marker :
  let line := js "<<<<<<< " in
  line = repeat (N_of_ascii "<") 7 ++ [32%N]
  /\ forallb is_space [32%N] = true
  /\ test spec_startPattern line = false
  /\ test conflictStartPattern line = true
  /\ step (js "test.js") 0 line initialState = opened (js "test.js") [] 0.
Proof. repeat split; reflexivity. Qed.

Lemma spec_labelled_is_marker (a : ascii) (line : jsstring) :
  test (spec_labelled_marker a) line = true ->
  test (Cat (Times 7 (Chr a)) (Cat (Plus Space) (Star Dot))) line = true.
Proof.
  intros Hl. apply test_spec_labelled in Hl.
  destruct Hl as (ws & c & label & -> & Hne & Hws & Hc & Hlabel).
  apply test_marker. exists ws, (c :: label). repeat split; try assumption.
  simpl. rewrite (non_space_is_dot _ Hc). exact Hlabel.
Qed.

(** C5, amended.  The parser takes a line for a start marker exactly
    when it is seven [<], then one or more white-space code units, then
    any run of code units other than line terminators, which may be
    empty; for a base marker the same with [|], for an end marker with
    [>]; for a separator exactly when it is [=======].  Every line the
    patterns of the specification accept is accepted, and so is every
    line of seven [<] followed by white space only. *)
Theorem marker_patterns (line : jsstring) :
  (test conflictStartPattern line = true <-> marker_line "<" line)
  /\ (test conflictBasePattern line = true <-> marker_line "|" line)
  /\ (test conflictEndPattern line = true <-> marker_line ">" line)
  /\ (test conflictSeparatorPattern line = true <-> line = js "=======")
  /\ (test spec_startPattern line = true -> test conflictStartPattern line = true)
  /\ (test spec_basePattern line = true -> test conflictBasePattern line = true)
  /\ (test spec_endPattern line = true -> test conflictEndPattern line = true)
  /\ test spec_separatorPattern line = test conflictSeparatorPattern line
  /\ (forall ws,
        line = repeat (N_of_ascii "<") 7 ++ ws ->
        ws <> [] -> forallb is_space ws = true ->
        test conflictStartPattern line = true).
Proof.
  split; [apply test_start|]. split; [apply test_base|].
  split; [apply test_end|]. split; [apply test_separator|].
  split; [apply spec_labelled_is_marker|].
  split; [apply spec_labelled_is_marker|].
  split; [apply spec_labelled_is_marker|].
  split; [reflexivity|].
  intros ws -> Hne Hws. apply test_start. exists ws, [].
  rewrite app_nil_r. repeat split; assumption.
Qed.

Lemma marker_patterns_witness :
  test conflictStartPattern (js "<<<<<<< " ++ [9%N]) = true.
Proof.
  destruct (marker_patterns (js "<<<<<<< " ++ [9%N]))
    as (_ & _ & _ & _ & _ & _ & _ & _ & H).
  apply (H [32%N; 9%N]).
  - reflexivity.
  - discriminate.
  - reflexivity.
Defined.

(** [hasConflicts] never answers [true]: without the [m] flag the
    separator pattern accepts only the text [=======], which the start
    pattern rejects. *)
Lemma hasConflicts_never (document : TextDocument) : hasConflicts document = false.
Proof.
  unfold hasConflicts.
  destruct (test conflictSeparatorPattern (getText document)) eqn:Hp.
  - destruct (separator_excludes _ Hp) as (Hs & _). rewrite Hs. reflexivity.
  - rewrite andb_false_r. reflexivity.
Qed.

(** C4, at the document of the test 'should check if document has
    conflicts': it holds one complete block, which [detectConflictsInFile]
    finds, and [hasConflicts] answers [false]. *)
Theorem hasConflicts_misses_a_complete_block :
  hasConflicts conflictContent = false
  /\ length (detectConflictsInFile conflictContent) = 1%nat
  /\ existsb is_start (split_lf (getText conflictContent)) = true
  /\ existsb (test conflictSeparatorPattern) (split_lf (getText conflictContent)) = true
  /\ existsb is_end (split_lf (getText conflictContent)) = true.
Proof. repeat split; reflexivity. Qed.

(* ================================================================= *)
(** * Backends: the properties of the specification *)

Section BackendProperties.
Context {World : Type} `{Transports World}.

(** C8.  For each of the three backends: when the transport call is made
    and succeeds with a reply text that [JSON.parse] rejects,
    [resolveConflict] returns normally; the resolution is the raw reply,
    the explanation is the fixed non-empty fallback text, and the
    confidence is 0.5 for Ollama and 0.6 for OpenAI and Claude, in each
    case within [0, 1].  (The hosted backends make the call only with an
    API key configured.) *)
Theorem unparseable_reply_degrades (type : ProviderType) (config : AIProviderConfig)
    (request : ConflictResolutionRequest) (w w' : World) (reply : jsstring) :
  (type <> ollama -> falsy (apiKey config) = false) ->
  transport type (call_of type config request) w = (inr reply, w') ->
  JSON_parse reply = None ->
  exists r,
    provider_resolveConflict (AIProviderManager.newProvider type config) request w
    = (inr r, w')
    /\ resolution r = reply
    /\ explanation r = unexpected_format
    /\ explanation r <> []
    /\ confidence r = fallback_confidence type
    /\ (0 <= confidence r)%Q /\ (confidence r <= 1)%Q.
Proof.
  intros Hkey Hcall Hparse.
  destruct type; simpl in Hcall |- *.
  - unfold OllamaProvider.resolveConflict. rewrite Hcall, Hparse.
    eexists. split; [reflexivity|]. simpl.
    repeat split; try discriminate.
  - unfold HostedProvider.resolveConflict, HostedProvider.type_of.
    rewrite Hkey by discriminate. rewrite Hcall, Hparse.
    eexists. split; [reflexivity|]. simpl.
    repeat split; try discriminate.
  - unfold HostedProvider.resolveConflict, HostedProvider.type_of.
    rewrite Hkey by discriminate. rewrite Hcall, Hparse.
    eexists. split; [reflexivity|]. simpl.
    repeat split; try discriminate.
Qed.

End BackendProperties.

Lemma unparseable_reply_degrades_witness :
  let w := script [inr (js "it depends")] in
  exists r,
    provider_resolveConflict (AIProviderManager.newProvider openai keyed_config)
      sample_request w
    = (inr r,
       snd (transport openai (call_of openai keyed_config sample_request) w))
    /\ resolution r = js "it depends"
    /\ explanation r = unexpected_format
    /\ explanation r <> []
    /\ confidence r = fallback_confidence openai
    /\ (0 <= confidence r)%Q /\ (confidence r <= 1)%Q.
Proof.
  apply (@unparseable_reply_degrades Scripted _ openai keyed_config sample_request
           (script [inr (js "it depends")])).
  - intros _. reflexivity.
  - reflexivity.
  - reflexivity.
Defined.

(* ================================================================= *)
(** * Sorting and editing *)

Module EditFacts.

Lemma sort_insert_last {A : Type} (compareFn : A -> A -> Z) (x : A) (l : list A) :
  Forall (fun y => 0 < compareFn x y) l ->
  sort_insert compareFn x l = l ++ [x].
Proof.
  induction l as [|y l IH]; intros Hall; [reflexivity|].
  inversion Hall as [|? ? Hy Hl]; subst. simpl.
  destruct (Z.leb_spec (compareFn x y) 0) as [Hle|_]; [lia|].
  rewrite IH by exact Hl. reflexivity.
Qed.

Lemma sort_insert_perm {A : Type} (compareFn : A -> A -> Z) (x : A) (l : list A) :
  Permutation (x :: l) (sort_insert compareFn x l).
Proof.
  induction l as [|y l IH]; simpl; [apply Permutation_refl|].
  destruct (compareFn x y <=? 0); [apply Permutation_refl|].
  eapply perm_trans; [apply perm_swap|]. apply perm_skip. exact IH.
Qed.

(** Sorting rearranges; it neither drops nor adds an element. *)
Lemma Array_sort_perm {A : Type} (compareFn : A -> A -> Z) (l : list A) :
  Permutation l (Array_sort compareFn l).
Proof.
  induction l as [|x l IH]; simpl; [constructor|].
  eapply perm_trans; [apply perm_skip; exact IH|]. apply sort_insert_perm.
Qed.

(** An array in strictly ascending order of [startLine] is reversed by
    the descending sort. *)
Lemma sortedConflicts_rev (cs : list MergeConflict) :
  StronglySorted (fun a b => startLine a < startLine b) cs ->
  ConflictResolver.sortedConflicts cs = rev cs.
Proof.
  unfold ConflictResolver.sortedConflicts.
  induction cs as [|c cs IH]; intros Hs; [reflexivity|].
  inversion Hs as [|? ? Hcs Hc]; subst. simpl.
  rewrite IH by exact Hcs. apply sort_insert_last.
  apply Forall_rev. eapply Forall_impl; [|exact Hc]. cbv beta. intros b Hb. lia.
Qed.

Lemma StronglySorted_snoc {A : Type} (R : A -> A -> Prop) (l : list A) (x : A) :
  StronglySorted R l -> Forall (fun y => R y x) l -> StronglySorted R (l ++ [x]).
Proof.
  induction l as [|a l IH]; intros Hs Hall; simpl.
  - constructor; constructor.
  - inversion Hs; subst. inversion Hall; subst.
    constructor; [apply IH; assumption|].
    apply Forall_app. split; [assumption|]. constructor; [assumption|constructor].
Qed.

Lemma StronglySorted_rev {A : Type} (R : A -> A -> Prop) (l : list A) :
  StronglySorted R l -> StronglySorted (fun a b => R b a) (rev l).
Proof.
  induction l as [|a l IH]; intros Hs; simpl; [constructor|].
  inversion Hs as [|? ? Hl Ha]; subst.
  apply StronglySorted_snoc; [apply IH; exact Hl|].
  apply Forall_rev. exact Ha.
Qed.

Lemma StronglySorted_weaken {A : Type} (P : A -> Prop) (R S : A -> A -> Prop)
    (l : list A) :
  (forall a b, P a -> P b -> R a b -> S a b) ->
  Forall P l -> StronglySorted R l -> StronglySorted S l.
Proof.
  intros HRS. induction l as [|a l IH]; intros HP Hs; [constructor|].
  inversion HP as [|? ? Pa Pl]; subst. inversion Hs as [|? ? Hl Ha]; subst.
  constructor; [apply IH; assumption|].
  rewrite Forall_forall in *. intros b Hb. apply HRS; auto.
Qed.

Lemma StronglySorted_app_inv_r {A : Type} (R : A -> A -> Prop) (l1 l2 : list A) :
  StronglySorted R (l1 ++ l2) -> StronglySorted R l2.
Proof.
  induction l1 as [|a l1 IH]; intros Hs; [exact Hs|].
  inversion Hs; subst. apply IH. assumption.
Qed.

(** Splitting a text at a line feed. *)
Lemma split_lf_app (x y : jsstring) :
  split_lf (x ++ LF :: y) = split_lf x ++ split_lf y.
Proof.
  induction x as [|c x IH]; simpl; [reflexivity|].
  destruct (N.eqb c LF).
  - rewrite IH. reflexivity.
  - rewrite IH. pose proof (split_lf_nonempty x) as Hne.
    destruct (split_lf x) as [|l ls]; [congruence|]. reflexivity.
Qed.

Lemma split_join_concat (ls : list jsstring) :
  ls <> [] -> split_lf (join_lf ls) = concat (map split_lf ls).
Proof.
  induction ls as [|l ls IH]; intros Hne; [congruence|].
  destruct ls as [|l' ls'].
  - simpl. rewrite app_nil_r. reflexivity.
  - change (join_lf (l :: l' :: ls')) with (l ++ LF :: join_lf (l' :: ls')).
    rewrite split_lf_app, IH by discriminate. reflexivity.
Qed.

Lemma concat_split_lines (ls : list jsstring) :
  Forall no_lf ls -> concat (map split_lf ls) = ls.
Proof.
  induction ls as [|l ls IH]; intros Hall; [reflexivity|].
  inversion Hall; subst. simpl.
  rewrite split_lf_line by assumption. rewrite IH by assumption. reflexivity.
Qed.

Lemma Forall_firstn {A : Type} (P : A -> Prop) (n : nat) (l : list A) :
  Forall P l -> Forall P (firstn n l).
Proof.
  revert l. induction n as [|n IH]; intros l Hl; [constructor|].
  destruct l as [|x l]; [constructor|].
  inversion Hl; subst. simpl. constructor; [assumption|apply IH; assumption].
Qed.

Lemma Forall_skipn {A : Type} (P : A -> Prop) (n : nat) (l : list A) :
  Forall P l -> Forall P (skipn n l).
Proof.
  revert l. induction n as [|n IH]; intros l Hl; [exact Hl|].
  destruct l as [|x l]; [constructor|].
  inversion Hl; subst. simpl. apply IH. assumption.
Qed.

(** The lines of a document after an edit. *)
Lemma lines_of_replaceRange (document : TextDocument) (e : WorkspaceEdit) :
  lines_of (replaceRange document e)
  = firstn (Z.to_nat (edit_startLine e)) (lines_of document)
    ++ split_lf
         (firstn (Z.to_nat (edit_startCharacter e))
                 (nth (Z.to_nat (edit_startLine e)) (lines_of document) [])
          ++ normalize_eol (edit_newText e)
          ++ skipn (Z.to_nat (edit_endCharacter e))
                   (nth (Z.to_nat (edit_endLine e)) (lines_of document) []))
    ++ skipn (S (Z.to_nat (edit_endLine e))) (lines_of document).
Proof.
  unfold replaceRange, lines_of at 1. cbn [getText].
  rewrite split_join_concat by (destruct (firstn _ _); discriminate).
  rewrite !map_app, !concat_app. cbn [map concat]. rewrite app_nil_r.
  pose proof (split_lf_no_lf (getText document)) as Hno.
  fold (lines_of document) in Hno.
  rewrite !concat_split_lines
    by (try apply Forall_firstn; try apply Forall_skipn; exact Hno).
  reflexivity.
Qed.

Lemma Forall2_impl_in {A B : Type} (P Q : A -> B -> Prop) (l : list A) (l' : list B) :
  (forall a b, In a l -> P a b -> Q a b) -> Forall2 P l l' -> Forall2 Q l l'.
Proof.
  intros HPQ Hall. induction Hall as [|a b l l' Hab Hall IH]; [constructor|].
  constructor; [apply HPQ; [left; reflexivity|exact Hab]|].
  apply IH. intros a' b' Ha'. apply HPQ. right. exact Ha'.
Qed.

Lemma concat_idle {A B : Type} (l : list A) :
  concat (map (fun _ => @nil B) l) = [].
Proof. induction l as [|a l IH]; [reflexivity|exact IH]. Qed.

Lemma StronglySorted_app_inv_l {A : Type} (R : A -> A -> Prop) (l1 l2 : list A) :
  StronglySorted R (l1 ++ l2) -> StronglySorted R l1.
Proof.
  induction l1 as [|a l1 IH]; intros Hs; [constructor|].
  inversion Hs as [|? ? Hl Ha]; subst. constructor; [apply IH; exact Hl|].
  apply Forall_app in Ha. apply Ha.
Qed.

(** The lines up to [s], then the lines from [s] on with the spans
    replaced, are the lines with the spans replaced, where [s] is not
    after the first span. *)
Lemma replace_spans_whole (lines : list jsstring) (s : Z) (asc : list ResolutionResult) :
  match asc with
  | [] => True
  | r :: _ => s <= startLine (rr_conflict r)
  end ->
  firstn (Z.to_nat s) lines ++ replace_spans lines s asc = replace_spans lines 0 asc.
Proof.
  destruct asc as [|r asc]; intros Hs; cbn [replace_spans].
  - apply firstn_skipn.
  - unfold span_lines at 1 3. cbn [Z.to_nat skipn]. rewrite app_assoc. f_equal.
    rewrite <- (firstn_skipn (Z.to_nat s)
                  (firstn (Z.to_nat (startLine (rr_conflict r))) lines)) at 2.
    rewrite firstn_firstn. f_equal. f_equal. lia.
Qed.

End EditFacts.

(* ================================================================= *)
(** * Workspaces and the map of detected conflicts *)

Module WorkspaceFacts.

Lemma jsstring_eqb_eq (a b : jsstring) : jsstring_eqb a b = true <-> a = b.
Proof.
  unfold jsstring_eqb. destruct (jsstring_eq_dec a b); split; congruence.
Qed.

Lemma jsstring_eqb_neq (a b : jsstring) : jsstring_eqb a b = false <-> a <> b.
Proof.
  unfold jsstring_eqb. destruct (jsstring_eq_dec a b); split; congruence.
Qed.

(** Storing the document of one path leaves the others alone. *)
Lemma open_store_other (path path' : jsstring) (d : TextDocument) (ws : Workspace) :
  path' <> path ->
  openTextDocument path' (storeTextDocument path d ws) = openTextDocument path' ws.
Proof.
  intros Hne. induction ws as [|[p d0] ws IH]; simpl; [reflexivity|].
  destruct (jsstring_eqb p path) eqn:Ep; simpl.
  - apply jsstring_eqb_eq in Ep. subst p.
    assert (Hn : jsstring_eqb path path' = false)
      by (apply jsstring_eqb_neq; congruence).
    rewrite Hn. reflexivity.
  - destruct (jsstring_eqb p path'); [reflexivity|exact IH].
Qed.

Lemma open_store_same (path : jsstring) (d d0 : TextDocument) (ws : Workspace) :
  openTextDocument path ws = Some d0 ->
  openTextDocument path (storeTextDocument path d ws) = Some d.
Proof.
  induction ws as [|[p d1] ws IH]; simpl; [discriminate|].
  destruct (jsstring_eqb p path) eqn:Ep; simpl; rewrite Ep; [reflexivity|exact IH].
Qed.

Lemma map_set_keys {V : Type} (k k' : jsstring) (v : V) (m : list (jsstring * V)) :
  In k' (map fst (map_set k v m)) -> k' = k \/ In k' (map fst m).
Proof.
  induction m as [|[k0 v0] m IH]; simpl.
  - intros [Hk|[]]. left. congruence.
  - destruct (jsstring_eqb k0 k); simpl.
    + intros [Hk|Hk]; right; [left|right]; assumption.
    + intros [Hk|Hk]; [right; left; exact Hk|].
      destruct (IH Hk) as [Heq|Hin]; [left|right; right]; assumption.
Qed.

Lemma map_set_fresh (ws : Workspace) (k : jsstring) (doc : TextDocument)
    (m : list (jsstring * list MergeConflict)) :
  openTextDocument k ws = Some doc ->
  entries_fresh ws m ->
  entries_fresh ws (map_set k (detectConflictsInFile doc) m).
Proof.
  intros Hk [Hnd Hall]. induction m as [|[k0 v0] m IH]; simpl.
  - split; [repeat constructor; intros []|].
    constructor; [|constructor]. exists doc. split; [exact Hk|reflexivity].
  - simpl in Hnd. inversion Hnd as [|? ? Hnotin Hnd']; subst.
    inversion Hall as [|? ? He Hall']; subst.
    destruct (jsstring_eqb k0 k) eqn:Ek.
    + apply jsstring_eqb_eq in Ek. subst k0. split; [exact Hnd|].
      constructor; [|exact Hall']. exists doc. split; [exact Hk|reflexivity].
    + apply jsstring_eqb_neq in Ek.
      destruct (IH Hnd' Hall') as [Hnd'' Hall'']. split.
      * simpl. constructor; [|exact Hnd''].
        intros Hin. destruct (map_set_keys _ _ _ _ Hin) as [Heq|Hin'];
          [congruence|contradiction].
      * constructor; assumption.
Qed.

End WorkspaceFacts.

(* ================================================================= *)
(** * The orchestrator: the properties of the specification *)

Import EditFacts ConflictResolver.

Section OrchestratorProperties.
Context {World : Type} `{Host World}.

(** What an edit of the span of a conflict does to the lines of the
    document. *)
Lemma applyResolution_lines (doc doc' : TextDocument) (c : MergeConflict)
    (text : jsstring) (w w' : World) (ok : bool) :
  applyResolution doc c text w = (ok, doc', w') ->
  (ok = false -> doc' = doc)
  /\ (lineAt doc (endLine c) = None -> ok = false /\ w' = w)
  /\ (ok = true ->
      0 <= startLine c
      /\ 0 <= endLine c < Z.of_nat (length (lines_of doc))
      /\ (startLine c <= endLine c ->
          lines_of doc'
          = firstn (Z.to_nat (startLine c)) (lines_of doc)
            ++ split_lf (normalize_eol text)
            ++ skipn (S (Z.to_nat (endLine c))) (lines_of doc))
      /\ (endLine c < startLine c ->
          lines_of doc'
          = firstn (Z.to_nat (endLine c)) (lines_of doc)
            ++ split_lf (nth (Z.to_nat (endLine c)) (lines_of doc) []
                         ++ normalize_eol text
                         ++ nth (Z.to_nat (startLine c)) (lines_of doc) [])
            ++ skipn (S (Z.to_nat (startLine c))) (lines_of doc))).
Proof.
  unfold applyResolution. intros Happly.
  destruct (lineAt doc (endLine c)) as [last|] eqn:Hlast.
  2:{ injection Happly as <- <- <-. repeat split; congruence. }
  destruct (Z.ltb_spec (startLine c) 0) as [Hneg|Hpos].
  { injection Happly as <- <- <-. repeat split; congruence. }
  assert (Hend : 0 <= endLine c < Z.of_nat (length (lines_of doc))).
  { unfold lineAt in Hlast.
    destruct (Z.leb_spec 0 (endLine c)); [|discriminate].
    destruct (Z.ltb_spec (endLine c) (Z.of_nat (length (lines_of doc))));
      [|discriminate].
    lia. }
  assert (Hnth : nth (Z.to_nat (endLine c)) (lines_of doc) [] = last).
  { unfold lineAt in Hlast.
    destruct ((0 <=? endLine c) && (endLine c <? Z.of_nat (length (lines_of doc))));
      [|discriminate].
    apply nth_error_nth. exact Hlast. }
  unfold Range in Happly.
  destruct ((startLine c <? endLine c)
            || ((startLine c =? endLine c) && (0 <=? Z.of_nat (length last))))
    eqn:Horder.
  - destruct (applyEdit _ w) as [success w1].
    destruct success.
    2:{ injection Happly as <- <- <-. repeat split; congruence. }
    injection Happly as <- <- <-.
    split; [discriminate|]. split; [discriminate|]. intros _.
    split; [exact Hpos|]. split; [exact Hend|]. split.
    + intros _. rewrite lines_of_replaceRange.
      cbn [edit_startLine edit_startCharacter edit_endLine edit_endCharacter
           edit_newText].
      rewrite Hnth, Nat2Z.id, skipn_all, app_nil_r. reflexivity.
    + intros Hswap. apply orb_true_iff in Horder. destruct Horder as [Hlt|Heq].
      * apply Z.ltb_lt in Hlt. lia.
      * apply andb_true_iff in Heq. destruct Heq as [Heq _].
        apply Z.eqb_eq in Heq. lia.
  - assert (Hswap : endLine c < startLine c).
    { apply orb_false_iff in Horder. destruct Horder as [Hlt Heq].
      apply Z.ltb_ge in Hlt. apply andb_false_iff in Heq.
      destruct Heq as [Heq|Hlen].
      - apply Z.eqb_neq in Heq. lia.
      - apply Z.leb_gt in Hlen. lia. }
    destruct (applyEdit _ w) as [success w1].
    destruct success.
    2:{ injection Happly as <- <- <-. repeat split; congruence. }
    injection Happly as <- <- <-.
    split; [discriminate|]. split; [discriminate|]. intros _.
    split; [exact Hpos|]. split; [exact Hend|]. split; [lia|].
    intros _. rewrite lines_of_replaceRange.
    cbn [edit_startLine edit_startCharacter edit_endLine edit_endCharacter
         edit_newText].
    rewrite Hnth, Nat2Z.id, firstn_all. reflexivity.
Qed.

Lemma set_last_applied_snoc (rs : list ResolutionResult) (r : ResolutionResult)
    (b : bool) :
  set_last_applied (rs ++ [r]) b
  = rs ++ [{| rr_conflict := rr_conflict r; rr_resolution := rr_resolution r;
              applied := b; error := error r |}].
Proof.
  unfold set_last_applied. rewrite rev_app_distr. cbn [rev app].
  rewrite rev_involutive. reflexivity.
Qed.

(** One iteration of the inner loop records one result, for its
    conflict; the document is edited, at the recorded span, exactly when
    the result is applied. *)
Lemma resolveAndApply_edit (path : jsstring) (c : MergeConflict)
    (st st' : @Batch World) (flow : Flow) :
  resolveAndApply path c st = (flow, st') ->
  exists r,
    results st' = results st ++ [r]
    /\ rr_conflict r = c
    /\ (applied r = false -> document st' = document st)
    /\ (applied r = true ->
        startLine c <= endLine c ->
        0 <= startLine c
        /\ endLine c < Z.of_nat (length (lines_of (document st)))
        /\ lines_of (document st')
           = firstn (Z.to_nat (startLine c)) (lines_of (document st))
             ++ split_lf (normalize_eol (resolution (rr_resolution r)))
             ++ skipn (S (Z.to_nat (endLine c))) (lines_of (document st))).
Proof.
  unfold resolveAndApply. intros Hstep.
  destruct (resolveConflict (document st) c (world st)) as [[e|r] w1].
  - destruct (showErrorMessage _ w1) as [action w2].
    exists (failed_result c e).
    assert (Hst : results st' = results st ++ [failed_result c e]
                  /\ document st' = document st).
    { destruct action as [[|]|]; injection Hstep as _ <-; split; reflexivity. }
    destruct Hst as [Hr Hd].
    split; [exact Hr|]. split; [reflexivity|]. split; [intros _; exact Hd|].
    cbn [applied failed_result]. discriminate.
  - destruct (applyResolution (document st) c (resolution r) w1)
      as [[ok doc1] w2] eqn:Hedit1.
    destruct (applyResolution_lines _ _ _ _ Hedit1) as (Hsame1 & _ & Hdone1).
    destruct ok.
    + injection Hstep as _ <-. eexists. cbn [results document].
      split; [reflexivity|]. cbn [rr_conflict rr_resolution applied].
      split; [reflexivity|]. split; [discriminate|].
      intros _ Hspan. destruct (Hdone1 eq_refl) as (H0 & Hend & Hlines & _).
      split; [exact H0|]. split; [lia|]. apply Hlines, Hspan.
    + rewrite (Hsame1 eq_refl) in *.
      destruct (showWarningMessage path w2) as [retry w3].
      destruct retry as [[| |]|].
      * destruct (applyResolution (document st) c (resolution r) w3)
          as [[ok2 doc2] w4] eqn:Hedit2.
        destruct (applyResolution_lines _ _ _ _ Hedit2) as (Hsame2 & _ & Hdone2).
        injection Hstep as _ <-. cbn [results document].
        rewrite set_last_applied_snoc. eexists.
        split; [reflexivity|]. cbn [rr_conflict rr_resolution applied].
        split; [reflexivity|]. split; [exact Hsame2|].
        intros Hok Hspan. destruct (Hdone2 Hok) as (H0 & Hend & Hlines & _).
        split; [exact H0|]. split; [lia|]. apply Hlines, Hspan.
      * injection Hstep as _ <-. eexists. cbn [results document].
        split; [reflexivity|]. cbn [rr_conflict rr_resolution applied].
        split; [reflexivity|]. split; [reflexivity|discriminate].
      * injection Hstep as _ <-. eexists. cbn [results document].
        split; [reflexivity|]. cbn [rr_conflict rr_resolution applied].
        split; [reflexivity|]. split; [reflexivity|discriminate].
      * injection Hstep as _ <-. eexists. cbn [results document].
        split; [reflexivity|]. cbn [rr_conflict rr_resolution applied].
        split; [reflexivity|]. split; [reflexivity|discriminate].
Qed.

(** The inner loop, walking spans that lie one below the other from the
    bottom up: the results it appends are those of a first part of its
    list, and the lines of the document stay the original lines with the
    spans of the applied results replaced. *)
Lemma processConflicts_replaces (path : jsstring) (lines : list jsstring)
    (todo : list MergeConflict) :
  forall (st st' : @Batch World) (flow : Flow) (asc : list ResolutionResult),
    StronglySorted (fun a b => endLine b < startLine a) todo ->
    Forall (fun a => 0 <= startLine a <= endLine a
                     /\ endLine a < Z.of_nat (length lines)
                     /\ match asc with
                        | [] => True
                        | r :: _ => endLine a < startLine (rr_conflict r)
                        end) todo ->
    lines_of (document st) = replace_spans lines 0 asc ->
    processConflicts path todo st = (flow, st') ->
    exists run rest,
      results st' = results st ++ run
      /\ todo = map rr_conflict run ++ rest
      /\ lines_of (document st') = replace_spans lines 0 (rev run ++ asc).
Proof.
  induction todo as [|c todo IH]; intros st st' flow asc Hsorted Hspans Hdoc Hrun.
  - injection Hrun as _ <-. exists [], [].
    split; [rewrite app_nil_r; reflexivity|]. split; [reflexivity|exact Hdoc].
  - cbn [processConflicts] in Hrun.
    destruct (isCancellationRequested (world st)).
    { injection Hrun as _ <-. exists [], (c :: todo).
      split; [rewrite app_nil_r; reflexivity|]. split; [reflexivity|exact Hdoc]. }
    inversion Hsorted as [|? ? Hrest Hbelow]; subst.
    inversion Hspans as [|? ? (Hc & Hclen & Hfront) Hrestspans]; subst.
    destruct (resolveAndApply path c st) as [flow1 st1] eqn:Hstep.
    destruct (resolveAndApply_edit _ _ _ Hstep) as (r & Hres & Hrc & Hkept & Hedited).
    assert (Hwhole : lines_of (document st)
                     = firstn (Z.to_nat (endLine c + 1)) lines
                       ++ replace_spans lines (endLine c + 1) asc).
    { rewrite Hdoc. symmetry. apply replace_spans_whole.
      destruct asc as [|r0 asc0]; [exact I|lia]. }
    assert (Hlen : length (firstn (Z.to_nat (endLine c + 1)) lines)
                   = Z.to_nat (endLine c + 1))
      by (apply firstn_length_le; lia).
    assert (Hdoc1 : lines_of (document st1) = replace_spans lines 0 (r :: asc)).
    { cbn [replace_spans]. rewrite Hrc. unfold span_lines at 1.
      cbn [Z.to_nat skipn].
      destruct (applied r) eqn:Happlied.
      - destruct (Hedited eq_refl ltac:(lia)) as (_ & _ & ->).
        rewrite Hwhole. f_equal.
        + rewrite firstn_app, firstn_firstn, Hlen.
          replace (Z.to_nat (startLine c) - Z.to_nat (endLine c + 1))%nat with O by lia.
          cbn [firstn]. rewrite app_nil_r. f_equal. lia.
        + f_equal. rewrite skipn_app, Hlen.
          rewrite skipn_all2 by lia.
          replace (S (Z.to_nat (endLine c)) - Z.to_nat (endLine c + 1))%nat with O by lia.
          reflexivity.
      - rewrite (Hkept eq_refl), Hwhole. rewrite app_assoc. f_equal.
        unfold span_lines.
        rewrite <- (firstn_skipn (Z.to_nat (startLine c))
                      (firstn (Z.to_nat (endLine c + 1)) lines)) at 1.
        rewrite firstn_firstn. f_equal. f_equal. lia. }
    assert (Hone : exists run rest,
              results st1 = results st ++ run
              /\ c :: todo = map rr_conflict run ++ rest
              /\ lines_of (document st1) = replace_spans lines 0 (rev run ++ asc)).
    { exists [r], todo. split; [exact Hres|]. split; [cbn [map app]; congruence|].
      exact Hdoc1. }
    destruct flow1.
    + assert (Hnext : Forall (fun a => 0 <= startLine a <= endLine a
                                /\ endLine a < Z.of_nat (length lines)
                                /\ endLine a < startLine (rr_conflict r)) todo).
      { rewrite Forall_forall in *. intros a Ha.
        destruct (Hrestspans a Ha) as (Ha1 & Ha2 & _). specialize (Hbelow a Ha).
        rewrite Hrc. repeat split; lia. }
      destruct (IH st1 st' flow (r :: asc) Hrest Hnext Hdoc1 Hrun)
        as (run & rest & Hres' & Htodo & Hdoc').
      exists (r :: run), rest. split; [|split].
      * rewrite Hres', Hres, <- app_assoc. reflexivity.
      * cbn [map app]. congruence.
      * cbn [rev]. rewrite <- app_assoc. exact Hdoc'.
    + injection Hrun as _ <-. exact Hone.
    + injection Hrun as _ <-. exact Hone.
Qed.

(** The inner loop on the conflicts detected in the document it edits. *)
Lemma file_loop_bottom_up (document0 : TextDocument) (path : jsstring)
    (rs : list ResolutionResult) (w : World) (flow : Flow) (st : @Batch World) :
  processConflicts path (sortedConflicts (detectConflictsInFile document0))
    {| results := rs; document := document0; world := w |} = (flow, st) ->
  exists run,
    results st = rs ++ run
    /\ (exists todo, rev (detectConflictsInFile document0) = map rr_conflict run ++ todo)
    /\ StronglySorted (fun a b => startLine b < startLine a) (map rr_conflict run)
    /\ lines_of (document st) = replace_spans (lines_of document0) 0 (rev run).
Proof.
  intros Hrun.
  destruct (SpanFacts.detect_spans (fileName document0) (split_lf (getText document0)))
    as [Hspan Hord].
  fold (detectConflictsInFile document0) in Hspan, Hord.
  fold (lines_of document0) in Hspan.
  assert (Hasc : StronglySorted (fun a b => startLine a < startLine b)
                   (detectConflictsInFile document0)).
  { apply StronglySorted_weaken with (2 := Hspan) (3 := Hord).
    unfold well_spanned. intros a b Ha Hb Hab. lia. }
  rewrite (sortedConflicts_rev Hasc) in Hrun.
  assert (Hspans : Forall (fun a => 0 <= startLine a <= endLine a
                              /\ endLine a < Z.of_nat (length (lines_of document0))
                              /\ True)
                     (rev (detectConflictsInFile document0))).
  { apply Forall_rev. eapply Forall_impl; [|exact Hspan].
    unfold well_spanned. intros a Ha. repeat split; lia. }
  destruct (@processConflicts_replaces path (lines_of document0)
              (rev (detectConflictsInFile document0))
              {| results := rs; document := document0; world := w |} st flow []
              (StronglySorted_rev Hord) Hspans eq_refl Hrun)
    as (run & rest & Hres & Htodo & Hdoc).
  - exists run. cbn [results] in Hres. split; [exact Hres|].
    split; [exists rest; exact Htodo|]. split.
    + apply StronglySorted_app_inv_l with (l2 := rest). rewrite <- Htodo.
      apply (StronglySorted_rev Hasc).
    + rewrite app_nil_r in Hdoc. exact Hdoc.
Qed.

(** [detectAllConflicts] maps distinct paths to the conflicts of their
    documents. *)
Lemma detectAllConflicts_fresh (ws : Workspace) (w : World) :
  entries_fresh ws (fst (detectAllConflicts ws w)).
Proof.
  unfold detectAllConflicts. destruct (findFiles w) as [found w']. cbn [fst].
  assert (Hgen : forall m, entries_fresh ws m ->
            entries_fresh ws
              (fold_left
                 (fun conflictsByFile file =>
                    match openTextDocument file ws with
                    | None => conflictsByFile
                    | Some document =>
                        let cs := detectConflictsInFile document in
                        if 0 <? Z.of_nat (length cs)
                        then map_set file cs conflictsByFile
                        else conflictsByFile
                    end) found m)).
  { induction found as [|file found IH]; intros m Hm; [exact Hm|].
    cbn [fold_left]. apply IH.
    destruct (openTextDocument file ws) as [doc|] eqn:Hopen; [|exact Hm].
    cbv zeta. destruct (0 <? Z.of_nat (length (detectConflictsInFile doc)));
      [|exact Hm].
    apply WorkspaceFacts.map_set_fresh; assumption. }
  apply Hgen. split; constructor.
Qed.

(** The loop over the files leaves alone the documents of the paths
    that are not among its entries. *)
Lemma processFiles_untouched (entries : list (jsstring * list MergeConflict)) :
  forall (rs : list ResolutionResult) (ws : Workspace) (w : World) (path : jsstring),
    ~ In path (map fst entries) ->
    openTextDocument path (snd (fst (processFiles entries rs ws w)))
    = openTextDocument path ws.
Proof.
  induction entries as [|[p cs] rest IH]; intros rs ws w path Hnot; [reflexivity|].
  cbn [processFiles]. cbn [map fst] in Hnot.
  destruct (isCancellationRequested w); [reflexivity|].
  destruct (openTextDocument p ws) as [doc|]; [|reflexivity].
  destruct (processConflicts p (sortedConflicts cs)
              {| results := rs; document := doc; world := w |}) as [flow st].
  assert (Hp : path <> p) by (intros ->; apply Hnot; left; reflexivity).
  assert (Hrest : ~ In path (map fst rest)) by (intros Hin; apply Hnot; right; exact Hin).
  destruct flow; cbn [fst snd];
    try (rewrite IH by exact Hrest);
    apply WorkspaceFacts.open_store_other; exact Hp.
Qed.

(** Entries the batch does not come to have no result and keep their
    documents. *)
Lemma idle_runs (ws ws' : Workspace) (entries : list (jsstring * list MergeConflict)) :
  entries_fresh ws entries ->
  (forall e, In e entries -> openTextDocument (fst e) ws' = openTextDocument (fst e) ws) ->
  Forall2 (bottom_up_run ws ws') entries (map (fun _ => []) entries).
Proof.
  intros [_ Hall]. induction entries as [|e entries IH]; intros Hsame; [constructor|].
  inversion Hall as [|? ? (doc & Hopen & Hcs) Hall']; subst.
  cbn [map]. constructor.
  - exists doc, doc. split; [exact Hopen|]. split; [exact Hcs|].
    split; [exists (rev (snd e)); reflexivity|]. split; [constructor|].
    split; [rewrite Hsame by (left; reflexivity); exact Hopen|reflexivity].
  - apply IH; [exact Hall'|]. intros e' He'. apply Hsame. right. exact He'.
Qed.

Lemma entries_fresh_tail (ws : Workspace) (path : jsstring) (cs : list MergeConflict)
    (d : TextDocument) (rest : list (jsstring * list MergeConflict)) :
  entries_fresh ws ((path, cs) :: rest) ->
  entries_fresh (storeTextDocument path d ws) rest
  /\ (forall e, In e rest ->
        openTextDocument (fst e) (storeTextDocument path d ws)
        = openTextDocument (fst e) ws)
  /\ ~ In path (map fst rest).
Proof.
  intros [Hnd Hall]. cbn [map fst] in Hnd.
  inversion Hnd as [|? ? Hnotin Hnd']; subst.
  inversion Hall as [|? ? _ Hall']; subst.
  assert (Hother : forall e, In e rest ->
            openTextDocument (fst e) (storeTextDocument path d ws)
            = openTextDocument (fst e) ws).
  { intros e He. apply WorkspaceFacts.open_store_other.
    intros Heq. apply Hnotin. rewrite <- Heq. apply in_map. exact He. }
  split; [|split; [exact Hother|exact Hnotin]].
  split; [exact Hnd'|].
  rewrite Forall_forall in *. intros e He.
  destruct (Hall' e He) as (doc' & Hopen' & Hcs).
  exists doc'. split; [|exact Hcs]. rewrite Hother by exact He. exact Hopen'.
Qed.

(** The loop over the files: it does not throw on the entries of the
    map, and what it appends is, entry after entry, a bottom-up run. *)
Lemma processFiles_runs (entries : list (jsstring * list MergeConflict)) :
  forall (rs : list ResolutionResult) (ws : Workspace) (w : World),
    entries_fresh ws entries ->
    exists runs,
      fst (fst (processFiles entries rs ws w)) = inr (rs ++ concat runs)
      /\ Forall2 (bottom_up_run ws (snd (fst (processFiles entries rs ws w))))
                 entries runs.
Proof.
  induction entries as [|[path cs] rest IH]; intros rs ws w Hfresh.
  - exists []. split; [cbn; rewrite app_nil_r; reflexivity|constructor].
  - cbn [processFiles].
    destruct (isCancellationRequested w).
    { exists (map (fun _ => []) ((path, cs) :: rest)). cbn [fst snd]. split.
      - rewrite concat_idle, app_nil_r. reflexivity.
      - apply idle_runs; [exact Hfresh|reflexivity]. }
    pose proof Hfresh as [_ Hall].
    inversion Hall as [|? ? (doc & Hopen & Hcs) _]; subst.
    cbn [fst snd] in Hopen, Hcs. rewrite Hopen.
    destruct (processConflicts path (sortedConflicts cs)
                {| results := rs; document := doc; world := w |})
      as [flow st] eqn:Hloop.
    pose proof Hloop as Hloop'. rewrite Hcs in Hloop'.
    destruct (file_loop_bottom_up _ _ _ _ Hloop') as (run & Hres & Hprefix & Hsorted & Hdoc).
    destruct (entries_fresh_tail (document st) Hfresh) as (Hfresh' & Hother & Hnotin).
    assert (Hhead : forall ws',
              openTextDocument path ws' = Some (document st) ->
              bottom_up_run ws ws' (path, cs) run).
    { intros ws' Hopen'. exists doc, (document st). cbn [fst snd].
      split; [exact Hopen|]. split; [exact Hcs|].
      split; [rewrite Hcs; exact Hprefix|]. split; [exact Hsorted|].
      split; [exact Hopen'|exact Hdoc]. }
    assert (Hstored : openTextDocument path (storeTextDocument path (document st) ws)
                      = Some (document st))
      by (apply (@WorkspaceFacts.open_store_same path (document st) doc ws Hopen)).
    assert (Hlater : exists runs,
              fst (fst (processFiles rest (results st)
                          (storeTextDocument path (document st) ws) (world st)))
              = inr (rs ++ concat runs)
              /\ Forall2 (bottom_up_run ws
                            (snd (fst (processFiles rest (results st)
                                         (storeTextDocument path (document st) ws)
                                         (world st)))))
                         ((path, cs) :: rest) runs).
    { destruct (IH (results st) (storeTextDocument path (document st) ws) (world st)
                  Hfresh') as (runs & Hout & Hruns).
      exists (run :: runs). split.
      - rewrite Hout, Hres. cbn [concat]. rewrite app_assoc. reflexivity.
      - constructor.
        + apply Hhead. rewrite processFiles_untouched by exact Hnotin. exact Hstored.
        + apply Forall2_impl_in with (2 := Hruns).
          intros e r He (d & d' & H1 & H2 & H3 & H4 & H5 & H6).
          exists d, d'. rewrite <- (Hother e He).
          repeat split; assumption. }
    destruct flow.
    + exact Hlater.
    + exact Hlater.
    + exists (run :: map (fun _ => []) rest). cbn [fst snd]. split.
      * cbn [concat]. rewrite concat_idle, app_nil_r, Hres. reflexivity.
      * constructor; [apply Hhead; exact Hstored|].
        apply idle_runs; [|exact Hother].
        destruct Hfresh as [Hnd Hall0]. cbn [map fst] in Hnd.
        inversion Hnd; subst. inversion Hall0; subst. split; assumption.
Qed.

(** In worlds where nothing interrupts the batch, a call of the backend
    and an edit lead to such worlds again. *)
Lemma resolveAndApply_quiet (quiet : World -> Prop) (path : jsstring)
    (c : MergeConflict) (st st' : @Batch World) (flow : Flow) :
  uninterrupted quiet ->
  quiet (world st) ->
  resolveAndApply path c st = (flow, st') ->
  flow = Next /\ quiet (world st').
Proof.
  intros Hun Hq Hstep.
  assert (Hedit : forall doc text w ok doc' w',
            quiet w -> applyResolution doc c text w = (ok, doc', w') -> quiet w').
  { intros doc text w ok doc' w' Hw. unfold applyResolution.
    destruct (lineAt doc (endLine c)); [|intros Heq; injection Heq as _ _ <-; exact Hw].
    destruct (startLine c <? 0); [intros Heq; injection Heq as _ _ <-; exact Hw|].
    destruct (Range _ _ _ _) as [[[l1 c1] l2] c2].
    destruct (Hun w Hw) as (_ & Happlied & _).
    match goal with
    | |- context [applyEdit ?e w] =>
        specialize (Happlied e); destruct (applyEdit e w) as [success w1]
    end.
    cbn [snd] in Happlied. destruct success; intros Heq; injection Heq as _ _ <-.
    - destruct (Hun w1 Happlied) as (_ & _ & Hsave & _). apply Hsave.
    - exact Happlied. }
  unfold resolveAndApply in Hstep.
  assert (Hresolve : quiet (snd (resolveConflict (document st) c (world st)))).
  { unfold resolveConflict. destruct (currentProvider (world st)) as [provider|] eqn:Hp.
    - cbn [AIProviderManager.getProvider].
      destruct (Hun _ Hq) as (_ & _ & _ & _ & _ & Hcall & _). apply Hcall, Hp.
    - exact Hq. }
  destruct (resolveConflict (document st) c (world st)) as [[e|r] w1].
  - cbn [snd] in Hresolve.
    destruct (Hun w1 Hresolve) as (_ & _ & _ & _ & Herr & _).
    specialize (Herr (js "Error resolving conflict: " ++ message e)).
    destruct (showErrorMessage _ w1) as [action w2]. cbn [fst snd] in Herr.
    destruct Herr as [Hno Hq2].
    destruct action as [[|]|]; try congruence;
      injection Hstep as <- <-; split; [reflexivity|exact Hq2|reflexivity|exact Hq2].
  - cbn [snd] in Hresolve.
    destruct (applyResolution (document st) c (resolution r) w1)
      as [[ok doc1] w2] eqn:Hedit1.
    pose proof (Hedit _ _ _ _ _ _ Hresolve Hedit1) as Hq2.
    destruct ok.
    + injection Hstep as <- <-. split; [reflexivity|exact Hq2].
    + destruct (Hun w2 Hq2) as (_ & _ & _ & Hwarn & _).
      specialize (Hwarn path).
      destruct (showWarningMessage path w2) as [retry w3]. cbn [fst snd] in Hwarn.
      destruct Hwarn as [Hno Hq3].
      destruct retry as [[| |]|]; try congruence.
      * destruct (applyResolution doc1 c (resolution r) w3)
          as [[ok2 doc2] w4] eqn:Hedit2.
        pose proof (Hedit _ _ _ _ _ _ Hq3 Hedit2) as Hq4.
        injection Hstep as <- <-. split; [reflexivity|exact Hq4].
      * injection Hstep as <- <-. split; [reflexivity|exact Hq3].
      * injection Hstep as <- <-. split; [reflexivity|exact Hq3].
Qed.

Lemma processConflicts_quiet (quiet : World -> Prop) (path : jsstring)
    (cs : list MergeConflict) :
  uninterrupted quiet ->
  forall st : @Batch World,
    quiet (world st) ->
    exists st',
      processConflicts path cs st = (Next, st')
      /\ quiet (world st')
      /\ map rr_conflict (results st') = map rr_conflict (results st) ++ cs.
Proof.
  intros Hun. induction cs as [|c cs IH]; intros st Hq.
  - exists st. split; [reflexivity|]. split; [exact Hq|].
    rewrite app_nil_r. reflexivity.
  - cbn [processConflicts]. destruct (Hun _ Hq) as (-> & _).
    destruct (resolveAndApply path c st) as [flow st1] eqn:Hstep.
    destruct (resolveAndApply_quiet _ _ _ Hun Hq Hstep) as [-> Hq1].
    destruct (resolveAndApply_edit _ _ _ Hstep) as (r & Hres & Hrc & _).
    destruct (IH st1 Hq1) as (st' & Hrun & Hq' & Hmap).
    exists st'. split; [exact Hrun|]. split; [exact Hq'|].
    rewrite Hmap, Hres, map_app. cbn [map]. rewrite Hrc, <- app_assoc. reflexivity.
Qed.

(** Uninterrupted, the loop over the files comes to every conflict of
    every entry. *)
Lemma processFiles_quiet (quiet : World -> Prop)
    (entries : list (jsstring * list MergeConflict)) :
  uninterrupted quiet ->
  forall (rs : list ResolutionResult) (ws : Workspace) (w : World),
    entries_fresh ws entries ->
    quiet w ->
    exists rs',
      fst (fst (processFiles entries rs ws w)) = inr rs'
      /\ map rr_conflict rs'
         = map rr_conflict rs ++ concat (map (fun e => rev (snd e)) entries).
Proof.
  intros Hun. induction entries as [|[path cs] rest IH]; intros rs ws w Hfresh Hq.
  - exists rs. split; [reflexivity|]. cbn. rewrite app_nil_r. reflexivity.
  - cbn [processFiles]. destruct (Hun _ Hq) as (-> & _).
    pose proof Hfresh as [_ Hall].
    inversion Hall as [|? ? (doc & Hopen & Hcs) _]; subst.
    cbn [fst snd] in Hopen, Hcs. rewrite Hopen.
    destruct (@processConflicts_quiet quiet path (sortedConflicts cs) Hun
                {| results := rs; document := doc; world := w |} Hq)
      as (st & Hloop & Hq1 & Hmap).
    rewrite Hloop.
    destruct (entries_fresh_tail (document st) Hfresh) as (Hfresh' & _ & _).
    destruct (IH (results st) (storeTextDocument path (document st) ws) (world st)
                Hfresh' Hq1) as (rs' & Hout & Hmap').
    exists rs'. split; [exact Hout|].
    rewrite Hmap', Hmap. cbn [results map concat fst snd].
    rewrite <- app_assoc. f_equal. f_equal.
    destruct (SpanFacts.detect_spans (fileName doc) (split_lf (getText doc)))
      as [Hspan Hord].
    fold (detectConflictsInFile doc) in Hspan, Hord.
    rewrite Hcs. apply sortedConflicts_rev.
    apply StronglySorted_weaken with (2 := Hspan) (3 := Hord).
    unfold well_spanned. intros a b Ha Hb Hab. lia.
Qed.


(** C7.  When the call to the active backend throws [e], [resolveConflict]
    of the orchestrator throws the same [e]; in the batch loop (not
    cancelled) the same failure is caught: a result with [applied = false],
    the empty response and [error = e.message] is appended, the document
    is left alone, and the loop goes on with the next conflict unless
    the user answers 'Cancel', which returns the results so far. *)
Theorem backend_failure_thrown_or_recorded (path : jsstring)
    (conflict : MergeConflict) (rest : list MergeConflict) (st : @Batch World)
    (provider : AIProvider World) (e : JsError) (w1 : World) :
  currentProvider (world st) = Some provider ->
  provider_resolveConflict provider (request_for (document st) conflict) (world st)
  = (inl e, w1) ->
  resolveConflict (document st) conflict (world st) = (inl e, w1)
  /\ (isCancellationRequested (world st) = false ->
      let answer := showErrorMessage (js "Error resolving conflict: " ++ message e) w1 in
      let st1 := {| results := results st ++ [failed_result conflict e];
                    document := document st;
                    world := snd answer |} in
      applied (failed_result conflict e) = false
      /\ error (failed_result conflict e) = Some (message e)
      /\ processConflicts path (conflict :: rest) st
         = match fst answer with
           | Some CancelBatch => (Return, st1)
           | _ => processConflicts path rest st1
           end).
Proof.
  intros Hprovider Hcall.
  assert (Hresolve : resolveConflict (document st) conflict (world st) = (inl e, w1)).
  { unfold resolveConflict. rewrite Hprovider. simpl. exact Hcall. }
  split; [exact Hresolve|].
  intros Htoken answer st1. split; [reflexivity|]. split; [reflexivity|].
  cbn [processConflicts]. rewrite Htoken.
  unfold resolveAndApply. rewrite Hresolve.
  subst st1 answer.
  destruct (showErrorMessage (js "Error resolving conflict: " ++ message e) w1)
    as [action w2].
  cbn [fst snd]. destruct action as [[|]|]; reflexivity.
Qed.

End OrchestratorProperties.

Lemma scripted_uninterrupted : uninterrupted scripted_quiet.
Proof.
  intros w (Htoken & Hwarn & Herr).
  split; [exact Htoken|].
  split; [intros e; repeat split; assumption|].
  split; [intros file; repeat split; assumption|].
  split.
  { intros path. cbn. destruct (warnings w) as [|a rest]; cbn.
    - split; [discriminate|]. repeat split; assumption.
    - inversion Hwarn; subst. split; [assumption|]. repeat split; assumption. }
  split.
  { intros text. cbn. destruct (errors w) as [|a rest]; cbn.
    - split; [discriminate|]. repeat split; assumption.
    - inversion Herr; subst. split; [assumption|]. repeat split; assumption. }
  split; [|repeat split; assumption].
  intros provider request Hprovider. injection Hprovider as <-.
  cbn [AIProviderManager.switchProvider AIProviderManager.newProvider
       OllamaProvider.provider provider_resolveConflict].
  unfold OllamaProvider.resolveConflict. cbn [transport scripted_transports].
  destruct (hd (inl unreachable) (replies w)) as [failure|reply]; cbn [snd].
  - repeat split; assumption.
  - destruct (JSON_parse reply) as [[|r e c]|]; cbn [snd]; repeat split; assumption.
Qed.


Lemma backend_failure_thrown_or_recorded_witness :
  let st := {| results := []; document := twoConflicts; world := script [] |} in
  exists e w1,
    resolveConflict twoConflicts secondConflict (script []) = (inl e, w1)
    /\ message e = js "Failed to get resolution from Ollama: Error: connect ECONNREFUSED"
    /\ map rr_conflict
         (results (snd (processConflicts (js "test.js") [secondConflict; firstConflict] st)))
       = [secondConflict; firstConflict]
    /\ map applied
         (results (snd (processConflicts (js "test.js") [secondConflict; firstConflict] st)))
       = [false; false].
Proof.
  intros st.
  pose (provider := AIProviderManager.switchProvider (World := Scripted)
                      default_settings None ollama).
  pose (outcome := provider_resolveConflict provider
                     (request_for twoConflicts secondConflict) (script [])).
  assert (Hprovider : currentProvider (world st) = Some provider) by reflexivity.
  assert (Hcall : provider_resolveConflict provider
                    (request_for (document st) secondConflict) (world st)
                  = (inl {| message := js "Failed to get resolution from Ollama: Error: connect ECONNREFUSED" |},
                     snd outcome)) by reflexivity.
  destruct (@backend_failure_thrown_or_recorded Scripted _ (js "test.js")
              secondConflict [firstConflict] st provider _ _ Hprovider Hcall)
    as [Hthrown Hbatch].
  eexists. eexists. split; [exact Hthrown|]. split; [reflexivity|].
  destruct (Hbatch eq_refl) as (_ & _ & Hloop).
  rewrite Hloop. split; reflexivity.
Defined.

(** C9, at three suggestions asked of the Ollama backend as
    [switchProvider] configures it: the three attempts succeed, and the
    transport has received three calls with the same prompt and the same
    temperature 0.3; none of the values of [temperatures] is sent. *)
Theorem suggestions_share_one_temperature :
  let run :=
    getSuggestions conflictContent
      (block_record (js "test.js") 1 [js "    return 'HEAD';"] [js "    return 'branch';"])
      3 (script [inr (js "a"); inr (js "b"); inr (js "c")]) in
  (exists suggestions, fst run = inr suggestions /\ length suggestions = 3%nat)
  /\ map call_temperature (sent (snd run)) = [0.3%Q; 0.3%Q; 0.3%Q]
  /\ (exists prompt, map call_prompt (sent (snd run)) = [prompt; prompt; prompt])
  /\ temperatures = [0.2%Q; 0.5%Q; 0.8%Q].
Proof.
  intros run. split; [|split; [|split]].
  - eexists. split; reflexivity.
  - reflexivity.
  - eexists. reflexivity.
  - reflexivity.
Qed.

(* ================================================================= *)
(** * Further properties of the parser *)

(** Closed side conditions, by evaluation. *)
Ltac evaluate := vm_compute; reflexivity.
Ltac all_lines :=
  repeat (apply Forall_cons; [evaluate|]); apply Forall_nil.

(** Equal records up to arithmetic in their fields. *)
Ltac align := repeat first [reflexivity | lia | progress f_equal].

(** Projections of explicit parser states. *)
Ltac tidy :=
  cbn [conflicts inConflict currentConflict section currentBuf baseBuf
       incomingBuf p_startLine p_currentStart p_filePath p_currentEnd
       p_separatorLine p_incomingStart app].

Lemma step_base (file : jsstring) (i : Z) (line : jsstring) (st : ParserState) :
  test conflictBasePattern line = true ->
  inConflict st = true ->
  step file i line st
  = {| conflicts := conflicts st;
       inConflict := true;
       currentConflict := currentConflict st;
       section := base;
       currentBuf := currentBuf st; baseBuf := baseBuf st;
       incomingBuf := incomingBuf st |}.
Proof.
  intros Hb Hin. destruct (base_excludes _ Hb) as (Hs & Hp & _).
  unfold step. rewrite Hs, Hp, Hb, Hin. reflexivity.
Qed.

(** A whole 3-way block read from any state adds its record. *)
Lemma scan_block3 (file : jsstring) (s b p e : jsstring)
    (cur bas inc : list jsstring) (i : Z) (st : ParserState) :
  test conflictStartPattern s = true ->
  Forall (fun l => is_marker l = false) cur ->
  test conflictBasePattern b = true ->
  Forall (fun l => is_marker l = false) bas ->
  test conflictSeparatorPattern p = true ->
  Forall (fun l => is_marker l = false) inc ->
  test conflictEndPattern e = true ->
  scan file (s :: cur ++ b :: bas ++ p :: inc ++ [e]) i st
  = {| conflicts := conflicts st ++ [block3_record file i cur bas inc];
       inConflict := false;
       currentConflict := None;
       section := incoming;
       currentBuf := cur; baseBuf := bas; incomingBuf := inc |}.
Proof.
  intros Hs Hcur Hb Hbas Hp Hinc He.
  cbn [scan]. rewrite step_start by exact Hs. unfold opened.
  rewrite scan_app. rewrite (@scan_content file cur _ _ Hcur) by reflexivity.
  unfold add_content; tidy.
  cbn [scan]. rewrite step_base by (try exact Hb; reflexivity). tidy.
  rewrite scan_app. rewrite (@scan_content file bas _ _ Hbas) by reflexivity.
  unfold add_content; tidy.
  cbn [scan]. rewrite step_separator by (try exact Hp; reflexivity). tidy.
  rewrite scan_app. rewrite (@scan_content file inc _ _ Hinc) by reflexivity.
  unfold add_content; tidy.
  cbn [scan]. rewrite step_end by (try exact He; reflexivity). tidy.
  unfold finish, block3_record; tidy.
  assert (Hbase : (if 0 <? Z.of_nat (length bas) then Some (join_lf bas) else None)
                  = match bas with [] => None | _ => Some (join_lf bas) end)
    by (destruct bas; reflexivity).
  rewrite Hbase.
  do 4 f_equal; try lia; f_equal; lia.
Qed.

(** X1.  A document with one well-formed 3-way block (start marker, N
    content lines, base marker, B content lines, separator, M content
    lines, end marker) and no other start marker gives exactly one
    record.  Its [baseContent] is the B base lines joined, and is
    undefined when the base section has no line; [currentEnd] is the line
    before the separator, so the recorded current span runs over the
    base marker and the base lines; [endLine - startLine = N + B + M + 3]. *)
Theorem detect_three_way_block (document : TextDocument)
    (pre cur bas inc post : list jsstring) (s b p e : jsstring) :
  split_lf (getText document)
  = pre ++ (s :: cur ++ b :: bas ++ p :: inc ++ [e]) ++ post ->
  Forall (fun l => is_start l = false) pre ->
  test conflictStartPattern s = true ->
  Forall (fun l => is_marker l = false) cur ->
  test conflictBasePattern b = true ->
  Forall (fun l => is_marker l = false) bas ->
  test conflictSeparatorPattern p = true ->
  Forall (fun l => is_marker l = false) inc ->
  test conflictEndPattern e = true ->
  Forall (fun l => is_start l = false) post ->
  exists c,
    detectConflictsInFile document = [c]
    /\ c = block3_record (fileName document) (Z.of_nat (length pre)) cur bas inc
    /\ currentContent c = join_lf cur
    /\ incomingContent c = join_lf inc
    /\ (bas = [] -> baseContent c = None)
    /\ (bas <> [] -> baseContent c = Some (join_lf bas))
    /\ currentEnd c = option_map (fun x => x - 1) (separatorLine c)
    /\ endLine c - startLine c
       = Z.of_nat (length cur) + Z.of_nat (length bas) + Z.of_nat (length inc) + 3.
Proof.
  intros Hlines Hpre Hs Hcur Hb Hbas Hp Hinc He Hpost.
  exists (block3_record (fileName document) (Z.of_nat (length pre)) cur bas inc).
  split.
  { unfold detectConflictsInFile, detectConflictsInLines. rewrite Hlines.
    rewrite scan_app, (@scan_outside _ pre _ _ Hpre) by reflexivity.
    rewrite scan_app, scan_block3 by assumption.
    rewrite (@scan_outside _ post _ _ Hpost) by reflexivity.
    reflexivity. }
  split; [reflexivity|]. split; [reflexivity|]. split; [reflexivity|].
  split; [intros ->; reflexivity|].
  split; [destruct bas; [congruence|reflexivity]|].
  unfold block3_record. simpl. split; [f_equal; lia|lia].
Qed.

Lemma detect_three_way_block_witness :
  exists c,
    detectConflictsInFile threeWay = [c]
    /\ c = block3_record (js "test.js") 1 [js "    console.log('HEAD version');"]
             [js "    console.log('base version');"]
             [js "    console.log('branch version');"]
    /\ currentContent c = js "    console.log('HEAD version');"
    /\ incomingContent c = js "    console.log('branch version');"
    /\ ([js "    console.log('base version');"] = [] -> baseContent c = None)
    /\ ([js "    console.log('base version');"] <> [] ->
        baseContent c = Some (js "    console.log('base version');"))
    /\ currentEnd c = option_map (fun x => x - 1) (separatorLine c)
    /\ endLine c - startLine c = 1 + 1 + 1 + 3.
Proof.
  apply (@detect_three_way_block threeWay
           [js "function test() {"] [js "    console.log('HEAD version');"]
           [js "    console.log('base version');"]
           [js "    console.log('branch version');"] [js "}"]
           (js "<<<<<<< HEAD") (js "||||||| base") (js "=======")
           (js ">>>>>>> feature")).
  - vm_compute. reflexivity.
  - all_lines.
  - vm_compute. reflexivity.
  - all_lines.
  - vm_compute. reflexivity.
  - all_lines.
  - vm_compute. reflexivity.
  - all_lines.
  - vm_compute. reflexivity.
  - all_lines.
Defined.

(** Reading a line commutes with moving the state down by [k] lines and
    putting earlier conflicts in front. *)
Lemma step_relocate (file : jsstring) (cs0 : list MergeConflict) (k i : Z)
    (line : jsstring) (st : ParserState) :
  step file (i + k) line (relocate cs0 k st) = relocate cs0 k (step file i line st).
Proof.
  unfold step, relocate. tidy.
  destruct (test conflictStartPattern line); [unfold shift_partial; simpl; align|].
  destruct (inConflict st) eqn:Hin; cbn [andb]; [|simpl; rewrite Hin; reflexivity].
  destruct (test conflictSeparatorPattern line).
  { destruct (currentConflict st) as [q|]; unfold shift_partial; simpl;
      rewrite ?Hin; align. }
  destruct (test conflictBasePattern line); [simpl; rewrite ?Hin; reflexivity|].
  destruct (test conflictEndPattern line).
  { destruct (currentConflict st) as [q|]; simpl; [|reflexivity].
    rewrite map_app, app_assoc. simpl.
    unfold finish, shift_conflict, shift_partial. simpl. align. }
  destruct (section st); simpl; rewrite ?Hin; reflexivity.
Qed.

Lemma scan_relocate (file : jsstring) (cs0 : list MergeConflict) (k : Z)
    (ls : list jsstring) :
  forall i st,
    scan file ls (i + k) (relocate cs0 k st) = relocate cs0 k (scan file ls i st).
Proof.
  induction ls as [|l ls IH]; intros i st; [reflexivity|].
  cbn [scan]. rewrite step_relocate.
  replace (i + k + 1) with (i + 1 + k) by lia. apply IH.
Qed.

(** Outside a block the parser goes on from the conflicts found alone. *)
Lemma scan_from_outside (file : jsstring) (ls : list jsstring) :
  forall i st1 st2,
    inConflict st1 = false -> inConflict st2 = false ->
    conflicts st1 = conflicts st2 ->
    conflicts (scan file ls i st1) = conflicts (scan file ls i st2).
Proof.
  induction ls as [|l ls IH]; intros i st1 st2 H1 H2 Hc; [exact Hc|].
  cbn [scan]. destruct (test conflictStartPattern l) eqn:Hs.
  - rewrite !step_start by exact Hs. rewrite Hc. reflexivity.
  - rewrite !step_outside by assumption. apply IH; assumption.
Qed.

(** X2.  Where the parser is outside any block after the lines [l1], the
    conflicts of [l1 ++ l2] are those of [l1] followed by those of [l2]
    taken alone, moved down by the number of lines of [l1]: blocks are
    found independently of what precedes them, in document order. *)
Theorem detect_app (document : TextDocument) (l1 l2 : list jsstring) :
  split_lf (getText document) = l1 ++ l2 ->
  inConflict (scan (fileName document) l1 0 initialState) = false ->
  detectConflictsInFile document
  = detectConflictsInLines (fileName document) l1
    ++ map (shift_conflict (Z.of_nat (length l1)))
           (detectConflictsInLines (fileName document) l2).
Proof.
  intros Hlines Hout.
  unfold detectConflictsInFile. unfold detectConflictsInLines at 1.
  rewrite Hlines, scan_app.
  rewrite (@scan_from_outside (fileName document) l2 (0 + Z.of_nat (length l1))
             (scan (fileName document) l1 0 initialState)
             (relocate (detectConflictsInLines (fileName document) l1)
                       (Z.of_nat (length l1)) initialState)).
  - rewrite scan_relocate. reflexivity.
  - exact Hout.
  - reflexivity.
  - unfold relocate, detectConflictsInLines. cbn [conflicts initialState map].
    rewrite app_nil_r. reflexivity.
Qed.

Lemma detect_app_witness :
  detectConflictsInFile twoConflicts
  = detectConflictsInLines (js "test.js")
      [js "function first() {"; js "<<<<<<< HEAD"; js "    return 'first HEAD';";
       js "======="; js "    return 'first branch';"; js ">>>>>>> feature"; js "}"]
    ++ map (shift_conflict 7)
         (detectConflictsInLines (js "test.js")
            [js ""; js "function second() {"; js "<<<<<<< HEAD";
             js "    return 'second HEAD';"; js "=======";
             js "    return 'second branch';"; js ">>>>>>> feature"; js "}"]).
Proof.
  apply (@detect_app twoConflicts
           [js "function first() {"; js "<<<<<<< HEAD"; js "    return 'first HEAD';";
            js "======="; js "    return 'first branch';"; js ">>>>>>> feature"; js "}"]
           [js ""; js "function second() {"; js "<<<<<<< HEAD";
            js "    return 'second HEAD';"; js "=======";
            js "    return 'second branch';"; js ">>>>>>> feature"; js "}"]).
  - evaluate.
  - evaluate.
Defined.

(** X3.  The conflicts [detectConflictsInFile] returns lie inside the
    document, each with its start line before its end line and its
    separator line, where it has one, strictly between; they come in
    document order, each ending before the next starts, so no two
    overlap. *)
Theorem detected_conflicts_in_order (document : TextDocument) :
  Forall (well_spanned (Z.of_nat (length (lines_of document))))
         (detectConflictsInFile document)
  /\ in_document_order (detectConflictsInFile document).
Proof. apply detect_spans. Qed.

(** X4.  On the conflicts detected in a document,
    [getConflictAtPosition] returns a conflict exactly when the line lies
    in its span; as spans do not overlap, it is the only such conflict,
    and the answer is [undefined] exactly for the lines outside every
    span. *)
Theorem conflict_at_position (document : TextDocument) (line : Z) (c : MergeConflict) :
  (getConflictAtPosition (detectConflictsInFile document) line = Some c
   <-> In c (detectConflictsInFile document)
       /\ startLine c <= line /\ line <= endLine c)
  /\ (getConflictAtPosition (detectConflictsInFile document) line = None
      <-> forall c', In c' (detectConflictsInFile document) ->
                     ~ (startLine c' <= line /\ line <= endLine c')).
Proof.
  destruct (detect_spans (fileName document) (split_lf (getText document)))
    as [Hspan Hord].
  fold (detectConflictsInFile document) in Hspan, Hord.
  unfold getConflictAtPosition.
  set (inside := fun c0 => (startLine c0 <=? line) && (line <=? endLine c0)).
  assert (Hinside : forall c0, inside c0 = true
                               <-> startLine c0 <= line /\ line <= endLine c0).
  { intros c0. unfold inside. rewrite andb_true_iff, Z.leb_le, Z.leb_le. tauto. }
  split.
  - split.
    + intros Hfind. apply find_some in Hfind. destruct Hfind as [Hin Hc].
      apply Hinside in Hc. tauto.
    + intros (Hin & Hc). assert (Hc' : inside c = true) by (apply Hinside; exact Hc).
      clear Hspan. unfold in_document_order in Hord.
      induction Hord as [|a l Hl IH Ha]; [destruct Hin|].
      cbn [find]. destruct (inside a) eqn:Ea.
      * destruct Hin as [->|Hin]; [reflexivity|].
        apply Hinside in Ea. rewrite Forall_forall in Ha.
        specialize (Ha c Hin). lia.
      * destruct Hin as [->|Hin]; [congruence|]. apply IH. exact Hin.
  - split.
    + intros Hfind c' Hin Hc'. apply Hinside in Hc'.
      pose proof (find_none _ _ Hfind c' Hin) as Hno. cbv beta in Hno. congruence.
    + intros Hnone. destruct (find inside (detectConflictsInFile document))
        as [c0|] eqn:Hfind; [|reflexivity].
      apply find_some in Hfind. destruct Hfind as [Hin Hc0].
      apply Hinside in Hc0. destruct (Hnone c0 Hin Hc0).
Qed.

Lemma conflict_at_position_witness :
  getConflictAtPosition (detectConflictsInFile twoConflicts) 11 = Some secondConflict.
Proof.
  apply (proj1 (@conflict_at_position twoConflicts 11 secondConflict)).
  assert (Hfound : detectConflictsInFile twoConflicts = [firstConflict; secondConflict])
    by evaluate.
  rewrite Hfound. split; [|split].
  - right. left. reflexivity.
  - vm_compute. discriminate.
  - vm_compute. discriminate.
Defined.

(** The lines of the two buffers, and of the contents of the records
    found, are content lines of the text. *)
Lemma step_content_lines (file : jsstring) (i : Z) (line : jsstring) (st : ParserState) :
  no_lf line ->
  content_buffers st ->
  Forall no_lf (currentBuf st) -> Forall no_lf (incomingBuf st) ->
  Forall made_of_content (conflicts st) ->
  content_buffers (step file i line st)
  /\ Forall no_lf (currentBuf (step file i line st))
  /\ Forall no_lf (incomingBuf (step file i line st))
  /\ Forall made_of_content (conflicts (step file i line st)).
Proof.
  intros Hline [Hcur Hinc] Hcurlf Hinclf Hcs. unfold step, content_buffers.
  destruct (test conflictStartPattern line) eqn:Hs.
  { tidy. repeat split; try constructor. exact Hcs. }
  destruct (inConflict st) eqn:Hin; cbn [andb]; [|repeat split; assumption].
  destruct (test conflictSeparatorPattern line) eqn:Hp;
    [tidy; repeat split; assumption|].
  destruct (test conflictBasePattern line) eqn:Hb;
    [tidy; repeat split; assumption|].
  destruct (test conflictEndPattern line) eqn:He.
  { tidy. repeat split; try assumption.
    destruct (currentConflict st) as [q|]; [|exact Hcs].
    apply Forall_app. split; [exact Hcs|]. constructor; [|constructor].
    exists (currentBuf st), (incomingBuf st). unfold finish. simpl.
    repeat split; assumption. }
  assert (Hm : is_marker line = false)
    by (unfold is_marker; rewrite Hs, Hp, Hb, He; reflexivity).
  destruct (section st); tidy; repeat split; try assumption;
    apply Forall_app; split; try assumption; constructor; try assumption;
    constructor.
Qed.

Lemma scan_content_lines (file : jsstring) (ls : list jsstring) :
  forall i st,
    Forall no_lf ls ->
    content_buffers st ->
    Forall no_lf (currentBuf st) -> Forall no_lf (incomingBuf st) ->
    Forall made_of_content (conflicts st) ->
    Forall made_of_content (conflicts (scan file ls i st)).
Proof.
  induction ls as [|l ls IH]; intros i st Hls Hb Hc Hi Hcs; [exact Hcs|].
  inversion Hls as [|? ? Hl Hls']; subst. cbn [scan].
  destruct (@step_content_lines file i l st Hl Hb Hc Hi Hcs) as (Hb' & Hc' & Hi' & Hcs').
  apply IH; assumption.
Qed.

Lemma detected_made_of_content (document : TextDocument) :
  Forall made_of_content (detectConflictsInFile document).
Proof.
  unfold detectConflictsInFile, detectConflictsInLines.
  apply scan_content_lines.
  - apply split_lf_no_lf.
  - split; constructor.
  - constructor.
  - constructor.
  - constructor.
Qed.

(** The lines of a joined run of content lines are content lines. *)
Lemma split_joined_content (ls : list jsstring) :
  Forall (fun l => is_marker l = false) ls -> Forall no_lf ls ->
  Forall (fun l => is_marker l = false) (split_lf (join_lf ls)).
Proof.
  intros Hm Hlf. destruct ls as [|l ls].
  - simpl. constructor; [reflexivity|constructor].
  - rewrite split_join_lf by (try discriminate; exact Hlf). exact Hm.
Qed.

(** X5.  The text [showDiffPreview] builds from a detected conflict is a
    conflict block that parses back to that conflict: one record, at
    line 0, with the same [currentContent] and [incomingContent]; the
    base content is not carried over. *)
Theorem diff_preview_round_trip (document : TextDocument) (c : MergeConflict)
    (name language : jsstring) :
  In c (detectConflictsInFile document) ->
  exists c',
    detectConflictsInFile
      {| fileName := name; languageId := language;
         getText := diffOriginalContent c |} = [c']
    /\ currentContent c' = currentContent c
    /\ incomingContent c' = incomingContent c
    /\ baseContent c' = None
    /\ startLine c' = 0.
Proof.
  intros Hin.
  pose proof (detected_made_of_content document) as Hall.
  rewrite Forall_forall in Hall.
  destruct (Hall c Hin) as (cur & inc & Hcur & Hinc & Hcm & Hclf & Him & Hilf).
  exists (block_record name 0 (split_lf (currentContent c))
            (split_lf (incomingContent c))).
  split.
  - unfold detectConflictsInFile, detectConflictsInLines, diffOriginalContent.
    cbn [fileName getText app].
    rewrite !split_lf_app.
    change (split_lf (js "<<<<<<< HEAD")) with [js "<<<<<<< HEAD"].
    change (split_lf (js "=======")) with [js "======="].
    change (split_lf (js ">>>>>>> incoming")) with [js ">>>>>>> incoming"].
    cbn [app].
    rewrite (@scan_block name (js "<<<<<<< HEAD") (js "=======")
               (js ">>>>>>> incoming") (split_lf (currentContent c))
               (split_lf (incomingContent c)) 0 initialState).
    + reflexivity.
    + reflexivity.
    + rewrite Hcur. apply split_joined_content; assumption.
    + reflexivity.
    + rewrite Hinc. apply split_joined_content; assumption.
    + reflexivity.
  - unfold block_record. simpl. rewrite !join_split_lf. repeat split; reflexivity.
Qed.

Lemma diff_preview_round_trip_witness :
  exists c',
    detectConflictsInFile
      {| fileName := js "Untitled-1"; languageId := js "text";
         getText := diffOriginalContent secondConflict |} = [c']
    /\ currentContent c' = currentContent secondConflict
    /\ incomingContent c' = incomingContent secondConflict
    /\ baseContent c' = None
    /\ startLine c' = 0.
Proof.
  apply (@diff_preview_round_trip twoConflicts secondConflict).
  assert (Hfound : detectConflictsInFile twoConflicts = [firstConflict; secondConflict])
    by evaluate.
  rewrite Hfound. right. left. reflexivity.
Defined.

(* ================================================================= *)
(** * Further properties of contexts and edits *)

Lemma slice_middle {A : Type} (a m b : list A) (from to : Z) :
  from = Z.of_nat (length a) ->
  to = Z.of_nat (length a) + Z.of_nat (length m) ->
  slice (a ++ m ++ b) from to = m.
Proof.
  intros -> ->. unfold slice.
  replace (Z.to_nat (Z.of_nat (length a) + Z.of_nat (length m) - Z.of_nat (length a)))
    with (length m) by lia.
  rewrite Nat2Z.id, skipn_app, skipn_all, Nat.sub_diag. cbn [skipn app].
  rewrite firstn_app, firstn_all, Nat.sub_diag. cbn [firstn]. apply app_nil_r.
Qed.

(** X6.  [extractContext] returns, under its two headings, the lines
    right before the block and the lines right after it: [n] lines on
    each side, or all there are where the document has fewer; no line of
    the block itself and no line further away. *)
Theorem context_window (document : TextDocument) (c : MergeConflict) (n : Z)
    (a pre block post b : list jsstring) :
  lines_of document = a ++ pre ++ block ++ post ++ b ->
  startLine c = Z.of_nat (length a + length pre) ->
  endLine c = Z.of_nat (length a + length pre + length block) - 1 ->
  Z.of_nat (length pre) <= n -> (a = [] \/ Z.of_nat (length pre) = n) ->
  Z.of_nat (length post) <= n -> (b = [] \/ Z.of_nat (length post) = n) ->
  extractContext document c n
  = js "Context before conflict:" ++ [LF] ++ join_lf pre ++ [LF; LF]
      ++ js "Context after conflict:" ++ [LF] ++ join_lf post.
Proof.
  intros Hlines Hs He Hpre Ha Hpost Hb. unfold extractContext.
  fold (lines_of document). rewrite Hlines.
  assert (Hbefore : slice (a ++ pre ++ block ++ post ++ b)
                      (Z.max 0 (startLine c - n)) (startLine c) = pre).
  { apply slice_middle; [|lia].
    destruct Ha as [->|Ha]; simpl in *; lia. }
  assert (Hafter : slice (a ++ pre ++ block ++ post ++ b) (endLine c + 1)
                     (Z.min (Z.of_nat (length (a ++ pre ++ block ++ post ++ b)) - 1)
                            (endLine c + n) + 1) = post).
  { replace (a ++ pre ++ block ++ post ++ b)
      with ((a ++ pre ++ block) ++ post ++ b) by (rewrite <- !app_assoc; reflexivity).
    apply slice_middle.
    - rewrite !length_app. lia.
    - rewrite !length_app.
      destruct Hb as [->|Hb]; simpl; lia. }
  rewrite Hbefore, Hafter. reflexivity.
Qed.

Lemma context_window_witness :
  extractContext tenLines (block_record (js "test.js") 3 [js "ours"] [js "theirs"]) 2
  = js "Context before conflict:" ++ [LF] ++ join_lf [js "line 1"; js "line 2"]
      ++ [LF; LF] ++ js "Context after conflict:" ++ [LF]
      ++ join_lf [js "line 8"; js "line 9"].
Proof.
  apply (@context_window tenLines _ 2 [js "line 0"] [js "line 1"; js "line 2"]
           [js "<<<<<<< HEAD"; js "ours"; js "======="; js "theirs"; js ">>>>>>> feature"]
           [js "line 8"; js "line 9"] []).
  - evaluate.
  - evaluate.
  - evaluate.
  - vm_compute. discriminate.
  - right. reflexivity.
  - vm_compute. discriminate.
  - left. reflexivity.
Defined.



Section FurtherOrchestratorProperties.
Context {World : Type} `{Host World}.

(** X8.  In a document with one well-formed 2-way block and no other
    start marker, the conflict detected is the block; an applied
    resolution none of whose lines, as the editor stores them with LF
    line ends, is a start marker leaves the lines before the block, the
    lines of the resolution and the lines after the block, and
    [detectConflictsInFile] finds no conflict in the result. *)
Theorem resolved_block_leaves_none (doc : TextDocument)
    (pre cur inc post : list jsstring) (s p e text : jsstring) :
  lines_of doc = pre ++ (s :: cur ++ p :: inc ++ [e]) ++ post ->
  Forall (fun l => is_start l = false) pre ->
  test conflictStartPattern s = true ->
  Forall (fun l => is_marker l = false) cur ->
  test conflictSeparatorPattern p = true ->
  Forall (fun l => is_marker l = false) inc ->
  test conflictEndPattern e = true ->
  Forall (fun l => is_start l = false) post ->
  Forall (fun l => is_start l = false) (split_lf (normalize_eol text)) ->
  exists c,
    detectConflictsInFile doc = [c]
    /\ forall (w w' : World) (doc' : TextDocument),
         applyResolution doc c text w = (true, doc', w') ->
         lines_of doc' = pre ++ split_lf (normalize_eol text) ++ post
         /\ detectConflictsInFile doc' = [].
Proof.
  intros Hlines Hpre Hs Hcur Hp Hinc He Hpost Htext.
  exists (block_record (fileName doc) (Z.of_nat (length pre)) cur inc).
  split.
  { unfold detectConflictsInFile, detectConflictsInLines.
    fold (lines_of doc). rewrite Hlines.
    rewrite scan_app, (@scan_outside _ pre _ _ Hpre) by reflexivity.
    rewrite scan_app, scan_block by assumption.
    rewrite (@scan_outside _ post _ _ Hpost) by reflexivity.
    reflexivity. }
  intros w w' doc' Happly.
  destruct (applyResolution_lines _ _ _ _ Happly) as (_ & _ & Hok).
  destruct (Hok eq_refl) as (_ & _ & Hdoc' & _).
  assert (Hnew : lines_of doc' = pre ++ split_lf (normalize_eol text) ++ post).
  { rewrite Hdoc', Hlines by (cbn [startLine endLine block_record]; lia).
    cbn [startLine endLine block_record].
    rewrite Nat2Z.id.
    rewrite firstn_app, firstn_all, Nat.sub_diag. cbn [firstn].
    rewrite app_nil_r. f_equal. f_equal.
    replace (S (Z.to_nat (Z.of_nat (length pre) + Z.of_nat (length cur)
                          + Z.of_nat (length inc) + 2)))
      with (length pre + length (s :: cur ++ p :: inc ++ [e]))%nat
      by (cbn [length]; rewrite !length_app; cbn [length]; rewrite !length_app;
          cbn [length]; lia).
    rewrite skipn_app, skipn_all2 by lia.
    replace (length pre + length (s :: cur ++ p :: inc ++ [e]) - length pre)%nat
      with (length (s :: cur ++ p :: inc ++ [e])) by lia.
    rewrite skipn_app, skipn_all, Nat.sub_diag. reflexivity. }
  split; [exact Hnew|].
  unfold detectConflictsInFile, detectConflictsInLines.
  fold (lines_of doc'). rewrite Hnew.
  rewrite scan_outside; [reflexivity| |reflexivity].
  apply Forall_app. split; [exact Hpre|].
  apply Forall_app. split; [exact Htext|exact Hpost].
Qed.

(** One iteration appends one result, for its conflict. *)
Lemma resolveAndApply_appends (path : jsstring) (c : MergeConflict)
    (st st' : @Batch World) (flow : Flow) :
  resolveAndApply path c st = (flow, st') ->
  exists r,
    results st' = results st ++ [r]
    /\ rr_conflict r = c
    /\ result_consistent r.
Proof.
  unfold resolveAndApply, result_consistent. intros Hstep.
  destruct (resolveConflict (document st) c (world st)) as [[e|r] w1].
  - destruct (showErrorMessage _ w1) as [action w2].
    exists {| rr_conflict := c; rr_resolution := failure_response;
              applied := false; error := Some (message e) |}.
    split; [|split; [reflexivity|]].
    + destruct action as [[|]|]; injection Hstep as _ <-; reflexivity.
    + cbn [applied error]. split; [discriminate|]. intros _. discriminate.
  - destruct (applyResolution (document st) c (resolution r) w1)
      as [[ok doc1] w2].
    destruct ok.
    + injection Hstep as _ <-. eexists. split; [reflexivity|].
      split; [reflexivity|]. cbn [applied error]. split; [reflexivity|discriminate].
    + destruct (showWarningMessage path w2) as [retry w3].
      destruct retry as [[| |]|].
      * destruct (applyResolution doc1 c (resolution r) w3) as [[ok2 doc2] w4].
        injection Hstep as _ <-. cbn [results].
        rewrite set_last_applied_snoc. eexists. split; [reflexivity|].
        split; [reflexivity|]. cbn [applied error].
        split; [discriminate|]. intros _. discriminate.
      * injection Hstep as _ <-. eexists. split; [reflexivity|].
        split; [reflexivity|]. cbn [applied error].
        split; [discriminate|]. intros _. discriminate.
      * injection Hstep as _ <-. eexists. split; [reflexivity|].
        split; [reflexivity|]. cbn [applied error].
        split; [discriminate|]. intros _. discriminate.
      * injection Hstep as _ <-. eexists. split; [reflexivity|].
        split; [reflexivity|]. cbn [applied error].
        split; [discriminate|]. intros _. discriminate.
Qed.

Lemma processConflicts_appends (path : jsstring) (cs : list MergeConflict) :
  forall (st st' : @Batch World) (flow : Flow),
    processConflicts path cs st = (flow, st') ->
    exists new,
      results st' = results st ++ new
      /\ Forall result_consistent new
      /\ Forall (fun r => In (rr_conflict r) cs) new
      /\ (length new <= length cs)%nat.
Proof.
  induction cs as [|c cs IH]; intros st st' flow Hrun.
  - injection Hrun as _ <-. exists []. rewrite app_nil_r.
    repeat split; constructor.
  - cbn [processConflicts] in Hrun.
    destruct (isCancellationRequested (world st)).
    { injection Hrun as _ <-. exists []. rewrite app_nil_r.
      repeat split; try constructor. cbn [length]. lia. }
    destruct (resolveAndApply path c st) as [flow1 st1] eqn:Hstep.
    destruct (resolveAndApply_appends _ _ _ Hstep) as (r & Hr & Hrc & Hcons).
    assert (Hone : exists new,
               results st1 = results st ++ new
               /\ Forall result_consistent new
               /\ Forall (fun r0 => In (rr_conflict r0) (c :: cs)) new
               /\ (length new <= length (c :: cs))%nat).
    { exists [r]. repeat split; try assumption.
      - constructor; [exact Hcons|constructor].
      - constructor; [left; congruence|constructor].
      - cbn [length]. lia. }
    destruct flow1; [|injection Hrun as _ <-; exact Hone
                     |injection Hrun as _ <-; exact Hone].
    destruct (IH _ _ _ Hrun) as (new & Hnew & Hc & Hin & Hlen).
    exists (r :: new). repeat split.
    + rewrite Hnew, Hr, <- app_assoc. reflexivity.
    + constructor; assumption.
    + constructor; [left; congruence|].
      eapply Forall_impl; [|exact Hin]. intros r0 Hr0. right. exact Hr0.
    + cbn [length]. lia.
Qed.


End FurtherOrchestratorProperties.

Lemma resolved_block_leaves_none_witness :
  exists c,
    detectConflictsInFile conflictContent = [c]
    /\ forall (w w' : Scripted) (doc' : TextDocument),
         applyResolution conflictContent c (js "    return 'resolved';") w
         = (true, doc', w') ->
         lines_of doc'
         = [js "function test() {"]
           ++ split_lf (normalize_eol (js "    return 'resolved';")) ++ [js "}"]
         /\ detectConflictsInFile doc' = [].
Proof.
  apply (@resolved_block_leaves_none Scripted _ conflictContent
           [js "function test() {"] [js "    return 'HEAD';"]
           [js "    return 'branch';"] [js "}"]
           (js "<<<<<<< HEAD") (js "=======") (js ">>>>>>> feature")
           (js "    return 'resolved';")).
  - evaluate.
  - all_lines.
  - evaluate.
  - all_lines.
  - evaluate.
  - all_lines.
  - evaluate.
  - all_lines.
  - all_lines.
Defined.


(* ================================================================= *)
(** * Further properties of the batch *)

Section BatchFiles.
Context {World : Type} `{Host World}.

(** The step of the fold of [detectAllConflicts]. *)
Lemma map_set_In {V : Type} (k : jsstring) (v : V) (m : list (jsstring * V)) :
  In (k, v) (map_set k v m).
Proof.
  induction m as [|[k0 v0] m IH]; simpl; [left; reflexivity|].
  destruct (jsstring_eqb k0 k) eqn:Ek.
  - apply WorkspaceFacts.jsstring_eqb_eq in Ek. subst k0. left. reflexivity.
  - right. exact IH.
Qed.

Lemma map_set_keeps {V : Type} (k k' : jsstring) (v v' : V) (m : list (jsstring * V)) :
  In (k, v) m -> (k' = k -> v' = v) -> In (k, v) (map_set k' v' m).
Proof.
  intros Hin Hsame. induction m as [|[k0 v0] m IH]; [destruct Hin|].
  cbn [map_set]. destruct (jsstring_eqb k0 k') eqn:Ek.
  - apply WorkspaceFacts.jsstring_eqb_eq in Ek. subst k0.
    destruct Hin as [Heq|Hin]; [|right; exact Hin].
    injection Heq as -> ->. left. rewrite (Hsame eq_refl). reflexivity.
  - destruct Hin as [Heq|Hin]; [left; exact Heq|right; apply IH; exact Hin].
Qed.

Lemma map_set_values {V : Type} (P : V -> Prop) (k : jsstring) (v : V)
    (m : list (jsstring * V)) :
  P v -> Forall (fun e => P (snd e)) m -> Forall (fun e => P (snd e)) (map_set k v m).
Proof.
  intros Hv Hm. induction m as [|[k0 v0] m IH]; simpl.
  - constructor; [exact Hv|constructor].
  - inversion Hm; subst. destruct (jsstring_eqb k0 k).
    + constructor; assumption.
    + constructor; [assumption|apply IH; assumption].
Qed.

(** X10.  The map [detectAllConflicts] builds holds exactly the files
    found that open and have a conflict: its paths are distinct, each
    entry holds the non-empty list of the conflicts of the document at
    its path, and each found file whose document has a conflict has its
    entry; files that do not open or hold no conflict are left out. *)
Theorem detected_files (ws : Workspace) (w : World) :
  let entries := fst (detectAllConflicts ws w) in
  NoDup (map fst entries)
  /\ (forall path cs,
        In (path, cs) entries ->
        cs <> []
        /\ exists doc, openTextDocument path ws = Some doc
                       /\ cs = detectConflictsInFile doc)
  /\ (forall path doc,
        In path (fst (findFiles w)) ->
        openTextDocument path ws = Some doc ->
        detectConflictsInFile doc <> [] ->
        In (path, detectConflictsInFile doc) entries).
Proof.
  unfold detectAllConflicts. destruct (findFiles w) as [found w']. cbn [fst].
  set (f := fun (conflictsByFile : list (jsstring * list MergeConflict)) file =>
              match openTextDocument file ws with
              | None => conflictsByFile
              | Some document =>
                  let cs := detectConflictsInFile document in
                  if 0 <? Z.of_nat (length cs)
                  then map_set file cs conflictsByFile
                  else conflictsByFile
              end).
  assert (Hgen : forall m,
            entries_fresh ws m ->
            Forall (fun e => snd e <> []) m ->
            entries_fresh ws (fold_left f found m)
            /\ Forall (fun e => snd e <> []) (fold_left f found m)
            /\ (forall e, In e m -> In e (fold_left f found m))
            /\ (forall path doc,
                  In path found ->
                  openTextDocument path ws = Some doc ->
                  detectConflictsInFile doc <> [] ->
                  In (path, detectConflictsInFile doc) (fold_left f found m))).
  { induction found as [|file found IH]; intros m Hm Hne.
    - cbn [fold_left]. split; [exact Hm|]. split; [exact Hne|].
      split; [intros e He; exact He|intros path doc []].
    - cbn [fold_left].
      assert (Hstep : entries_fresh ws (f m file)
                      /\ Forall (fun e => snd e <> []) (f m file)
                      /\ (forall e, In e m -> In e (f m file))
                      /\ (forall doc, openTextDocument file ws = Some doc ->
                                      detectConflictsInFile doc <> [] ->
                                      In (file, detectConflictsInFile doc) (f m file))).
      { unfold f. destruct (openTextDocument file ws) as [doc|] eqn:Hopen.
        2:{ split; [exact Hm|]. split; [exact Hne|].
            split; [intros e He; exact He|intros doc Hd; discriminate Hd]. }
        cbv zeta.
        destruct (detectConflictsInFile doc) as [|c0 cs0] eqn:Hdet.
        { cbn [length Z.of_nat Z.ltb Z.compare].
          split; [exact Hm|]. split; [exact Hne|].
          split; [intros e He; exact He|].
          intros doc0 Hd Hn. injection Hd as <-. congruence. }
        replace (0 <? Z.of_nat (length (c0 :: cs0))) with true
          by (symmetry; apply Z.ltb_lt; cbn [length]; lia).
        rewrite <- Hdet. split; [|split; [|split]].
        - apply (@WorkspaceFacts.map_set_fresh ws file doc m Hopen Hm).
        - apply (@map_set_values _ (fun cs => cs <> []));
            [rewrite Hdet; discriminate|exact Hne].
        - intros [k v] He. apply map_set_keeps; [exact He|].
          intros ->. destruct Hm as [_ Hall]. rewrite Forall_forall in Hall.
          destruct (Hall _ He) as (doc0 & Hopen0 & Hv). cbn [fst snd] in Hopen0, Hv.
          congruence.
        - intros doc0 Hd _. injection Hd as <-. apply map_set_In. }
      destruct Hstep as (Hf & Hn & Hkeep & Hnew).
      destruct (IH (f m file) Hf Hn) as (Hf' & Hn' & Hkeep' & Hnew').
      split; [exact Hf'|]. split; [exact Hn'|]. split.
      + intros e He. apply Hkeep', Hkeep, He.
      + intros path doc [->|Hin] Hopen Hdet.
        * apply Hkeep'. apply Hnew; assumption.
        * apply (Hnew' path doc Hin Hopen Hdet). }
  destruct (Hgen [] (conj (NoDup_nil _) (Forall_nil _)) (Forall_nil _))
    as ([Hnd Hall] & Hne & _ & Hfound).
  split; [exact Hnd|]. split; [|exact Hfound].
  intros path cs Hin. rewrite Forall_forall in Hall, Hne. split.
  - apply (Hne _ Hin).
  - apply (Hall _ Hin).
Qed.

(** X11.  [resolveAllConflicts] leaves alone every document in which no
    conflict is detected: whatever the backend, the editor and the user
    do, such a document is the same after the batch. *)
Theorem batch_leaves_clean_files_alone (ws : Workspace) (w : World)
    (path : jsstring) (doc : TextDocument) :
  openTextDocument path ws = Some doc ->
  detectConflictsInFile doc = [] ->
  openTextDocument path (snd (fst (resolveAllConflicts ws w))) = Some doc.
Proof.
  intros Hopen Hclean. unfold resolveAllConflicts.
  pose proof (detected_files ws w) as (_ & Hentries & _).
  destruct (detectAllConflicts ws w) as [entries w1]. cbn [fst] in Hentries.
  rewrite processFiles_untouched; [exact Hopen|].
  intros Hin. apply in_map_iff in Hin. destruct Hin as ([p cs] & Hp & Hin).
  cbn [fst] in Hp. subst p.
  destruct (Hentries _ _ Hin) as (Hne & doc0 & Hopen0 & Hcs).
  congruence.
Qed.

(** X12.  With a backend selected, [getSuggestions] never throws: it
    returns a list of at most [min(count, 3)] responses, none for a
    count of zero or less, whatever attempts fail; with no backend
    selected it throws 'No AI provider is configured' before any
    attempt. *)
Theorem suggestions_bounded (document : TextDocument) (conflict : MergeConflict)
    (count : Z) (w : World) :
  (forall provider,
      currentProvider w = Some provider ->
      exists suggestions w',
        getSuggestions document conflict count w = (inr suggestions, w')
        /\ Z.of_nat (length suggestions) <= Z.max 0 (Z.min count 3))
  /\ (currentProvider w = None ->
      getSuggestions document conflict count w
      = (inl {| message := js "No AI provider is configured" |}, w)).
Proof.
  assert (Hloop : forall (n : nat) (provider : AIProvider World)
                         (acc : list ConflictResolutionResponse) (w0 : World),
            (length (fst (suggestionLoop n provider document conflict acc w0))
             <= length acc + n)%nat).
  { induction n as [|n IH]; intros provider acc w0; cbn [suggestionLoop]; [simpl; lia|].
    destruct (provider_resolveConflict provider (request_for document conflict) w0)
      as [[e|r] w1].
    - specialize (IH provider acc w1). lia.
    - specialize (IH provider (acc ++ [r]) w1). rewrite length_app in IH.
      cbn [length] in IH. lia. }
  unfold getSuggestions. split.
  - intros provider Hp. rewrite Hp. cbn [AIProviderManager.getProvider].
    specialize (Hloop (Z.to_nat (Z.min count (Z.of_nat (length temperatures))))
                      provider [] w).
    destruct (suggestionLoop _ provider document conflict [] w) as [suggestions w'].
    exists suggestions, w'. split; [reflexivity|].
    simpl in Hloop. simpl length. lia.
  - intros Hp. rewrite Hp. reflexivity.
Qed.

End BatchFiles.

Lemma batch_leaves_clean_files_alone_witness :
  openTextDocument (js "clean.js")
    (snd (fst (resolveAllConflicts
                 [(js "test.js", twoConflicts);
                  (js "clean.js", document_of "no conflict here")]
                 (script [inr (js "B"); inr (js "A")]))))
  = Some (document_of "no conflict here").
Proof.
  apply (@batch_leaves_clean_files_alone Scripted _).
  - evaluate.
  - evaluate.
Defined.

Lemma suggestions_bounded_witness :
  exists suggestions w',
    getSuggestions twoConflicts firstConflict 2 (script [inr (js "a")])
    = (inr suggestions, w')
    /\ Z.of_nat (length suggestions) <= Z.max 0 (Z.min 2 3).
Proof.
  destruct (@suggestions_bounded Scripted _ twoConflicts firstConflict 2
              (script [inr (js "a")])) as [Hsome _].
  apply (Hsome (AIProviderManager.switchProvider default_settings None ollama)).
  reflexivity.
Defined.

(* ================================================================= *)
(** * Further properties of the backends *)

Section FurtherBackendProperties.
Context {World : Type} `{Transports World}.

(** X13.  A response a backend returns is never blank: the transport
    call was made and gave a reply, the explanation is not empty, the
    confidence is not zero, no alternatives are given, and the resolution
    is empty only if the reply itself was empty. *)
Theorem backend_response_never_blank (type : ProviderType) (config : AIProviderConfig)
    (request : ConflictResolutionRequest) (w w' : World)
    (r : ConflictResolutionResponse) :
  provider_resolveConflict (AIProviderManager.newProvider type config) request w
  = (inr r, w') ->
  exists reply,
    transport type (call_of type config request) w = (inr reply, w')
    /\ explanation r <> []
    /\ ~ (confidence r == 0)%Q
    /\ alternatives r = None
    /\ (resolution r = [] -> reply = []).
Proof.
  assert (Hs : forall (a : option jsstring) (b : jsstring), b <> [] -> or_string a b <> []).
  { intros [[|c a]|] b Hb; simpl; [exact Hb|discriminate|exact Hb]. }
  assert (Hs' : forall (a : option jsstring) (b : jsstring), or_string a b = [] -> b = []).
  { intros [[|c a]|] b; simpl; [tauto|discriminate|tauto]. }
  assert (Hn : forall (a : option Q) (b : Q), ~ (b == 0)%Q -> ~ (or_number a b == 0)%Q).
  { intros [q|] b Hb; simpl; [|exact Hb].
    destruct (Qeq_bool q 0) eqn:Eq; [exact Hb|].
    intros Hq. apply Qeq_bool_iff in Hq. congruence. }
  assert (Hq : forall (a b : Q), Qeq_bool a b = false -> ~ (a == b)%Q).
  { intros a b Hf Heq. apply Qeq_bool_iff in Heq. congruence. }
  destruct type; simpl;
    unfold OllamaProvider.resolveConflict, HostedProvider.resolveConflict,
           HostedProvider.type_of;
    try (destruct (falsy (apiKey config)); [discriminate|]);
    match goal with
    | |- context [transport ?t ?c w] =>
        destruct (transport t c w) as [[failure|reply] w1]; [discriminate|]
    end;
    (destruct (JSON_parse reply) as [[|jr je jc]|]; [discriminate| |]);
    intros Heq; injection Heq as <- <-; exists reply; simpl;
    (split; [reflexivity|]);
    (split; [first [apply Hs; discriminate | discriminate]|]);
    (split; [first [apply Hn; apply Hq; reflexivity | apply Hq; reflexivity]|]);
    (split; [reflexivity|]);
    first [apply Hs' | tauto].
Qed.

(** X14.  What a backend throws: a hosted backend without an API key
    throws '<name> API key is required' before any transport call, so the
    world is untouched; every other error comes after the transport call,
    which failed or gave a reply that parses to [null], and its message
    starts with 'Failed to get resolution from <name>: '. *)
Theorem backend_error_message (type : ProviderType) (config : AIProviderConfig)
    (request : ConflictResolutionRequest) (w w' : World) (e : JsError) :
  provider_resolveConflict (AIProviderManager.newProvider type config) request w
  = (inl e, w') ->
  (type <> ollama /\ falsy (apiKey config) = true /\ w' = w
   /\ message e = backend_name type ++ js " API key is required")
  \/ ((type = ollama \/ falsy (apiKey config) = false)
      /\ w' = snd (transport type (call_of type config request) w)
      /\ (match fst (transport type (call_of type config request) w) with
          | inl _ => True
          | inr reply => JSON_parse reply = Some JsonNull
          end)
      /\ exists text,
           message e
           = js "Failed to get resolution from " ++ backend_name type ++ js ": " ++ text).
Proof.
  destruct type; simpl;
    unfold OllamaProvider.resolveConflict, HostedProvider.resolveConflict,
           HostedProvider.type_of;
    try (destruct (falsy (apiKey config)) eqn:Hkey;
         [intros Heq; injection Heq as <- <-; left;
          split; [discriminate|]; split; [reflexivity|]; split; reflexivity|]);
    match goal with
    | |- context [transport ?t ?c w] =>
        destruct (transport t c w) as [[failure|reply] w1]
    end;
    try (destruct (JSON_parse reply) as [[|jr je jc]|] eqn:Hparse; try discriminate);
    intros Heq; injection Heq as <- <-; right; simpl;
    (split; [first [left; reflexivity | right; reflexivity]|]);
    (split; [reflexivity|]); (split; [first [exact I | exact Hparse]|]);
    eexists; reflexivity.
Qed.

End FurtherBackendProperties.

Lemma backend_response_never_blank_witness :
  let w := script [inr (js "merged")] in
  let r := {| resolution := js "merged"; explanation := unexpected_format;
              confidence := 0.5%Q; alternatives := None |} in
  exists reply,
    transport ollama (call_of ollama keyed_config sample_request) w
    = (inr reply,
       snd (provider_resolveConflict (AIProviderManager.newProvider ollama keyed_config)
              sample_request w))
    /\ explanation r <> []
    /\ ~ (confidence r == 0)%Q
    /\ alternatives r = None
    /\ (resolution r = [] -> reply = []).
Proof.
  intros w r.
  apply (@backend_response_never_blank Scripted _ ollama keyed_config sample_request w).
  evaluate.
Defined.

Lemma backend_error_message_witness :
  let w := script [] in
  let e := {| message := js "OpenAI API key is required" |} in
  let config := AIProviderManager.getProviderConfig default_settings None openai in
  (openai <> ollama /\ falsy (apiKey config) = true /\ w = w
   /\ message e = backend_name openai ++ js " API key is required")
  \/ ((openai = ollama \/ falsy (apiKey config) = false)
      /\ w = snd (transport openai (call_of openai config sample_request) w)
      /\ (match fst (transport openai (call_of openai config sample_request) w) with
          | inl _ => True
          | inr reply => JSON_parse reply = Some JsonNull
          end)
      /\ exists text,
           message e
           = js "Failed to get resolution from " ++ backend_name openai
               ++ js ": " ++ text).
Proof.
  intros w e config.
  apply (@backend_error_message Scripted _ openai config sample_request w w e).
  evaluate.
Defined.

(* ================================================================= *)
(** * The backend selector and its secrets *)

Module SecretFacts.

Lemma get_store_same (k v : jsstring) (m : SecretStorage) :
  secrets_get k (secrets_store k v m) = Some v.
Proof.
  unfold secrets_store. induction m as [|[k0 v0] m IH]; simpl.
  - replace (jsstring_eqb k k) with true
      by (symmetry; apply WorkspaceFacts.jsstring_eqb_eq; reflexivity).
    reflexivity.
  - destruct (jsstring_eqb k0 k) eqn:Ek; simpl; rewrite Ek; [reflexivity|exact IH].
Qed.

Lemma get_store_other (k k' v : jsstring) (m : SecretStorage) :
  k' <> k -> secrets_get k' (secrets_store k v m) = secrets_get k' m.
Proof.
  intros Hne. unfold secrets_store. induction m as [|[k0 v0] m IH]; simpl.
  - replace (jsstring_eqb k k') with false
      by (symmetry; apply WorkspaceFacts.jsstring_eqb_neq; congruence).
    reflexivity.
  - destruct (jsstring_eqb k0 k) eqn:Ek; simpl.
    + apply WorkspaceFacts.jsstring_eqb_eq in Ek. subst k0.
      replace (jsstring_eqb k k') with false
        by (symmetry; apply WorkspaceFacts.jsstring_eqb_neq; congruence).
      reflexivity.
    + destruct (jsstring_eqb k0 k'); [reflexivity|exact IH].
Qed.

Lemma get_delete_same (k : jsstring) (m : SecretStorage) :
  secrets_get k (secrets_delete k m) = None.
Proof.
  unfold secrets_delete. induction m as [|[k0 v0] m IH]; simpl; [reflexivity|].
  destruct (jsstring_eqb k0 k) eqn:Ek; simpl; [exact IH|].
  rewrite Ek. exact IH.
Qed.

Lemma get_delete_other (k k' : jsstring) (m : SecretStorage) :
  k' <> k -> secrets_get k' (secrets_delete k m) = secrets_get k' m.
Proof.
  intros Hne. unfold secrets_delete. induction m as [|[k0 v0] m IH]; simpl; [reflexivity|].
  destruct (jsstring_eqb k0 k) eqn:Ek; simpl.
  - apply WorkspaceFacts.jsstring_eqb_eq in Ek. subst k0.
    replace (jsstring_eqb k k') with false
      by (symmetry; apply WorkspaceFacts.jsstring_eqb_neq; congruence).
    exact IH.
  - destruct (jsstring_eqb k0 k'); [reflexivity|exact IH].
Qed.

Lemma secretKey_inj (v v' : HostedVendor) : secretKey v' = secretKey v -> v' = v.
Proof.
  destruct v, v'; intros Heq; try reflexivity; vm_compute in Heq; discriminate Heq.
Qed.

(** [getApiKey] changes no secret but the one it asks for. *)
Lemma getApiKey_other (v : HostedVendor) (answer : option jsstring)
    (store : SecretStorage) (k : jsstring) :
  k <> secretKey v ->
  secrets_get k (snd (getApiKey v answer store)) = secrets_get k store.
Proof.
  intros Hne. unfold getApiKey.
  destruct (secrets_get (secretKey v) store) as [[|c s]|];
    destruct answer as [[|a t]|]; cbn [snd]; try reflexivity;
    apply get_store_other; exact Hne.
Qed.

End SecretFacts.

(** X15.  [updateApiKey] with a key that is not empty: the key is the
    stored secret of its vendor and the other vendor's secret is as it
    was; if the vendor is the configured backend, that backend is
    installed anew with the new key and without asking the user,
    otherwise the installed backend stays. *)
Theorem updated_key_is_used (settings : Settings) (configured : ProviderType)
    (v : HostedVendor) (key : jsstring) (answer : option jsstring)
    (st : ManagerState) :
  key <> [] ->
  let st' := Manager_updateApiKey settings configured v key answer st in
  secrets_get (secretKey v) (secrets st') = Some key
  /\ (forall v', v' <> v ->
        secrets_get (secretKey v') (secrets st') = secrets_get (secretKey v') (secrets st))
  /\ (configured = HostedProvider.type_of v ->
      installed st'
      = Some (configured,
              AIProviderManager.getProviderConfig settings (Some key) configured))
  /\ (configured <> HostedProvider.type_of v -> installed st' = installed st).
Proof.
  intros Hkey st'. subst st'. unfold Manager_updateApiKey.
  destruct key as [|c key]; [congruence|].
  assert (Hget : forall m,
            getApiKey v answer (secrets_store (secretKey v) (c :: key) m)
            = (Some (c :: key), secrets_store (secretKey v) (c :: key) m)).
  { intros m. unfold getApiKey. rewrite SecretFacts.get_store_same. reflexivity. }
  assert (Hother : forall v', v' <> v -> secretKey v' <> secretKey v).
  { intros v' Hv Heq. apply Hv, SecretFacts.secretKey_inj, Heq. }
  destruct (ProviderType_eqb configured (HostedProvider.type_of v)) eqn:Hc.
  - assert (Hconf : configured = HostedProvider.type_of v)
      by (destruct configured, v; simpl in Hc; try discriminate Hc; reflexivity).
    subst configured. unfold Manager_switchProvider, Manager_getProviderConfig.
    destruct v; cbn [HostedProvider.type_of secrets]; rewrite Hget; cbn [secrets installed].
    + repeat split.
      * apply SecretFacts.get_store_same.
      * intros v' Hv. apply SecretFacts.get_store_other, Hother, Hv.
      * intros Hne. congruence.
    + repeat split.
      * apply SecretFacts.get_store_same.
      * intros v' Hv. apply SecretFacts.get_store_other, Hother, Hv.
      * intros Hne. congruence.
  - cbn [secrets installed]. repeat split.
    + apply SecretFacts.get_store_same.
    + intros v' Hv. apply SecretFacts.get_store_other, Hother, Hv.
    + intros ->. destruct v; discriminate Hc.
Qed.

Lemma updated_key_is_used_witness :
  let st' := Manager_updateApiKey default_settings openai OpenAI (js "sk-new") None
               oneSecret in
  secrets_get (secretKey OpenAI) (secrets st') = Some (js "sk-new")
  /\ (forall v', v' <> OpenAI ->
        secrets_get (secretKey v') (secrets st')
        = secrets_get (secretKey v') (secrets oneSecret))
  /\ (openai = HostedProvider.type_of OpenAI ->
      installed st'
      = Some (openai,
              AIProviderManager.getProviderConfig default_settings
                (Some (js "sk-new")) openai))
  /\ (openai <> HostedProvider.type_of OpenAI -> installed st' = installed oneSecret).
Proof.
  apply (@updated_key_is_used default_settings openai OpenAI (js "sk-new") None oneSecret).
  vm_compute. discriminate.
Defined.

(** X16.  [clearApiKey] removes the secret of its vendor and nothing
    else: the other vendor's secret and the installed backend, which
    still holds the key it was built with, stay; switching to that
    vendor afterwards asks the user, installs the backend with whatever
    the user answered, and leaves the other vendor's secret alone. *)
Theorem cleared_key_is_asked_again (v : HostedVendor) (st : ManagerState) :
  let st1 := Manager_clearApiKey v st in
  installed st1 = installed st
  /\ secrets_get (secretKey v) (secrets st1) = None
  /\ (forall v', v' <> v ->
        secrets_get (secretKey v') (secrets st1) = secrets_get (secretKey v') (secrets st))
  /\ forall (settings : Settings) (answer : option jsstring),
       let st2 := Manager_switchProvider settings (HostedProvider.type_of v) answer st1 in
       installed st2
       = Some (HostedProvider.type_of v,
               AIProviderManager.getProviderConfig settings answer
                 (HostedProvider.type_of v))
       /\ secrets_get (secretKey v) (secrets st2)
          = (if falsy answer then None else answer)
       /\ (forall v', v' <> v ->
             secrets_get (secretKey v') (secrets st2)
             = secrets_get (secretKey v') (secrets st)).
Proof.
  intros st1. subst st1. unfold Manager_clearApiKey.
  assert (Hother : forall v', v' <> v -> secretKey v' <> secretKey v).
  { intros v' Hv Heq. apply Hv, SecretFacts.secretKey_inj, Heq. }
  split; [reflexivity|]. split; [apply SecretFacts.get_delete_same|].
  split; [intros v' Hv; apply SecretFacts.get_delete_other, Hother, Hv|].
  intros settings answer. cbv zeta.
  set (store := secrets_delete (secretKey v) (secrets st)).
  assert (Hnone : secrets_get (secretKey v) store = None)
    by apply SecretFacts.get_delete_same.
  assert (Hget : getApiKey v answer store
                 = (answer, if falsy answer then store
                            else secrets_store (secretKey v) (or_string answer []) store)).
  { unfold getApiKey. rewrite Hnone. destruct answer as [[|a t]|]; reflexivity. }
  assert (Hrest : forall v', v' <> v ->
            secrets_get (secretKey v')
              (if falsy answer then store
               else secrets_store (secretKey v) (or_string answer []) store)
            = secrets_get (secretKey v') (secrets st)).
  { intros v' Hv. destruct (falsy answer).
    - apply SecretFacts.get_delete_other, Hother, Hv.
    - rewrite SecretFacts.get_store_other by (apply Hother, Hv).
      apply SecretFacts.get_delete_other, Hother, Hv. }
  assert (Hown : secrets_get (secretKey v)
              (if falsy answer then store
               else secrets_store (secretKey v) (or_string answer []) store)
            = (if falsy answer then None else answer)).
  { destruct answer as [[|a t]|]; cbn [falsy]; try exact Hnone.
    apply SecretFacts.get_store_same. }
  unfold Manager_switchProvider, Manager_getProviderConfig.
  destruct v; cbn [HostedProvider.type_of secrets]; fold store; rewrite Hget;
    cbn [secrets installed]; (split; [reflexivity|]); (split; [exact Hown|exact Hrest]).
Qed.

(** X17.  [OllamaProvider.validateConfiguration] answers [true] exactly
    when the list of models came back and the name of one of them starts
    with the configured model name, 'codellama' if none is configured;
    the test for equal names adds nothing. *)
Theorem ollama_model_is_found_by_prefix (config : AIProviderConfig)
    (listing : TransportFailure + list jsstring) :
  Ollama_validateConfiguration config listing = true
  <-> exists names name,
        listing = inr names /\ In name names
        /\ starts_with name (or_string (model config) (js "codellama")) = true.
Proof.
  assert (Hrefl : forall s, starts_with s s = true).
  { induction s as [|c s IH]; simpl; [reflexivity|]. rewrite N.eqb_refl. exact IH. }
  unfold Ollama_validateConfiguration. destruct listing as [failure|names].
  - split; [discriminate|]. intros (names & name & Heq & _). discriminate Heq.
  - cbv zeta. rewrite existsb_exists. split.
    + intros (name & Hin & Htest). exists names, name.
      split; [reflexivity|]. split; [exact Hin|].
      apply orb_true_iff in Htest. destruct Htest as [Heq|Hpre]; [|exact Hpre].
      apply WorkspaceFacts.jsstring_eqb_eq in Heq. rewrite Heq. apply Hrefl.
    + intros (names' & name & Heq & Hin & Hpre). injection Heq as <-.
      exists name. split; [exact Hin|]. rewrite Hpre. apply orb_true_r.
Qed.

(* ================================================================= *)
(** * The retry of a failed edit *)

Section RetryProperties.
Context {World : Type} `{Host World}.

(** X18.  One iteration of the batch whose backend call succeeded
    records one result, with the response.  Its error text is absent
    exactly when the first edit was applied and is 'Failed to apply edit'
    otherwise, also when a retry then succeeded; it counts as applied
    exactly when the first edit was applied, or the user picked 'Retry'
    and the one retry was applied.  The batch is left only when the first
    edit failed and the user picked 'Cancel'; in every other case, a
    failed retry too, it goes on with the next conflict. *)
Theorem retried_edit_keeps_error (path : jsstring) (c : MergeConflict)
    (st st' : @Batch World) (r : ConflictResolutionResponse) (w1 : World)
    (flow : Flow) :
  resolveConflict (document st) c (world st) = (inr r, w1) ->
  resolveAndApply path c st = (flow, st') ->
  let first := applyResolution (document st) c (resolution r) w1 in
  let answer := showWarningMessage path (snd first) in
  let second := applyResolution (snd (fst first)) c (resolution r) (snd answer) in
  exists res,
    results st' = results st ++ [res]
    /\ rr_conflict res = c
    /\ rr_resolution res = r
    /\ (error res = None <-> fst (fst first) = true)
    /\ (error res <> None -> error res = Some (js "Failed to apply edit"))
    /\ (applied res = true
        <-> fst (fst first) = true
            \/ (fst answer = Some Retry /\ fst (fst second) = true))
    /\ (flow = Return <-> fst (fst first) = false /\ fst answer = Some CancelApply)
    /\ (flow <> Return -> flow = Next).
Proof.
  intros Hresolve Hstep first answer second. subst first answer second.
  unfold resolveAndApply in Hstep. rewrite Hresolve in Hstep.
  destruct (applyResolution (document st) c (resolution r) w1)
    as [[ok doc1] w2].
  cbn [fst snd].
  destruct ok.
  - injection Hstep as <- <-. eexists. cbn [results].
    split; [reflexivity|]. cbn [rr_conflict rr_resolution error applied].
    repeat split; try tauto; try discriminate; try congruence.
    + intros [Hf _]. discriminate Hf.
  - destruct (showWarningMessage path w2) as [retry w3]. cbn [fst snd].
    destruct retry as [[| |]|].
    + destruct (applyResolution doc1 c (resolution r) w3) as [[ok2 doc2] w4].
      injection Hstep as <- <-. cbn [results fst]. rewrite set_last_applied_snoc.
      eexists. split; [reflexivity|].
      cbn [rr_conflict rr_resolution error applied].
      repeat split; try tauto; try discriminate; try congruence.
      * intros [Hf|[_ Hs]]; [discriminate Hf|exact Hs].
      * intros [_ Hc]. discriminate Hc.
    + injection Hstep as <- <-. eexists. cbn [results].
      split; [reflexivity|]. cbn [rr_conflict rr_resolution error applied].
      repeat split; try tauto; try discriminate; try congruence.
      * intros [Hf|[Hr _]]; [discriminate Hf|discriminate Hr].
      * intros [_ Hc]. discriminate Hc.
    + injection Hstep as <- <-. eexists. cbn [results].
      split; [reflexivity|]. cbn [rr_conflict rr_resolution error applied].
      repeat split; try tauto; try discriminate; try congruence.
      * intros [Hf|[Hr _]]; [discriminate Hf|discriminate Hr].
    + injection Hstep as <- <-. eexists. cbn [results].
      split; [reflexivity|]. cbn [rr_conflict rr_resolution error applied].
      repeat split; try tauto; try discriminate; try congruence.
      * intros [Hf|[Hr _]]; [discriminate Hf|discriminate Hr].
      * intros [_ Hc]. discriminate Hc.
Qed.

End RetryProperties.

Lemma retried_edit_keeps_error_witness :
  let st := {| results := []; document := twoConflicts; world := retryWorld |} in
  let r := {| resolution := js "merged"; explanation := unexpected_format;
              confidence := 0.5%Q; alternatives := None |} in
  let w1 := snd (resolveConflict twoConflicts secondConflict retryWorld) in
  let st' := snd (resolveAndApply (js "test.js") secondConflict st) in
  let first := applyResolution (document st) secondConflict (resolution r) w1 in
  let answer := showWarningMessage (js "test.js") (snd first) in
  let second :=
    applyResolution (snd (fst first)) secondConflict (resolution r) (snd answer) in
  exists res,
    results st' = results st ++ [res]
    /\ rr_conflict res = secondConflict
    /\ rr_resolution res = r
    /\ (error res = None <-> fst (fst first) = true)
    /\ (error res <> None -> error res = Some (js "Failed to apply edit"))
    /\ (applied res = true
        <-> fst (fst first) = true
            \/ (fst answer = Some Retry /\ fst (fst second) = true))
    /\ (Next = Return <-> fst (fst first) = false /\ fst answer = Some CancelApply)
    /\ (Next <> Return -> Next = Next).
Proof.
  intros st r w1 st'.
  apply (@retried_edit_keeps_error Scripted _ (js "test.js") secondConflict st st' r w1
           Next).
  - evaluate.
  - evaluate.
Defined.
